(** * CoRALSTLNav: visualisation helpers ([src/viz_utils.py])

    A shallow embedding of the three live functions of the module,
    [plot_trajs_and_points], [generate_masks] and [mask_to_img], and the
    properties of them that the specification states.

    Conventions of the embedding.
    - A NumPy array is its shape and its row-major (C order) buffer.
    - Floating-point values are idealised as rationals ([Q]); colours are
      compared representation-wise (Leibniz equality on [Q] triples).
    - A Python exception is a value of [exn]; a call returns a [result].
    - Calls on the Matplotlib axes and on the segmentation model are
      recorded, in order, in a trace; an exception keeps the trace built so
      far, as the mutated axes object would.
    - A global name used by a function body is resolved, when the body
      runs, in the module namespace [viz_utils_globals]. *)

From Stdlib Require Import String ZArith QArith Bool Arith Lia List.
From Stdlib Require Import Permutation Sorted Qround DecimalString.
Import ListNotations.

Local Close Scope Q_scope.
Local Open Scope nat_scope.

Set Implicit Arguments.

(** ** Exceptions and results *)

Inductive exn : Type :=
| AssertionError (msg : string)
| IndexError
| NameError (name : string)
| TypeError
| AxisError
| CvError.

Inductive result (A : Type) : Type :=
| Ok (a : A)
| Raise (e : exn).

Arguments Ok {A} a.
Arguments Raise {A} e.

Definition rbind {A B : Type} (r : result A) (k : A -> result B) : result B :=
  match r with
  | Ok a => k a
  | Raise e => Raise e
  end.

(** [xs[i]] on a Python list, for an index [i >= 0]. *)
Definition index {A : Type} (xs : list A) (i : nat) : result A :=
  match nth_error xs i with
  | Some x => Ok x
  | None => Raise IndexError
  end.

(** ** Effectful calls: a trace of events and a result *)

Module Py.

Definition t (E A : Type) : Type := (list E * result A)%type.

Definition ret {E A : Type} (a : A) : t E A := ([], Ok a).

Definition raise {E A : Type} (e : exn) : t E A := ([], Raise e).

Definition emit {E : Type} (ev : E) : t E unit := ([ev], Ok tt).

Definition lift {E A : Type} (r : result A) : t E A := ([], r).

Definition bind {E A B : Type} (m : t E A) (k : A -> t E B) : t E B :=
  match m with
  | (tr, Ok a) => let (tr', r) := k a in (tr ++ tr', r)
  | (tr, Raise e) => (tr, Raise e)
  end.

(** [for x in xs: body(x)] *)
Fixpoint for_each {E A : Type} (xs : list A) (body : A -> t E unit) : t E unit :=
  match xs with
  | [] => ret tt
  | x :: rest => bind (body x) (fun _ => for_each rest body)
  end.

(** [assert cond, msg] *)
Definition assert {E : Type} (cond : bool) (msg : string) : t E unit :=
  if cond then ret tt else raise (AssertionError msg).

End Py.

Declare Scope py_scope.
Delimit Scope py_scope with py.
Notation "x <- m ;; k" := (Py.bind m (fun x => k))
  (at level 61, m at next level, right associativity) : py_scope.
Notation "m ;; k" := (Py.bind m (fun _ => k))
  (at level 61, right associativity) : py_scope.

(** [enumerate(xs)] *)
Definition enumerate {A : Type} (xs : list A) : list (nat * A) :=
  combine (seq 0 (length xs)) xs.

(** ** Arrays *)

Record ndarray (A : Type) : Type := mk_ndarray {
  shape : list nat;
  data : list A
}.

Definition size_of (s : list nat) : nat := fold_right Nat.mul 1 s.

Definition wf_array {A : Type} (a : ndarray A) : Prop :=
  length (data a) = size_of (shape a).

(** A two-dimensional float array, the type of a trajectory (shape
    [(horizon, 2)] or [(horizon, 4)]) and of the bearings derived from it. *)
Record array2 : Type := mk_array2 {
  nrows : nat;
  ncols : nat;
  cells : list Q
}.

(** [a[::step, j]] for [step >= 1]: column [j] of the rows [0, step, 2*step, ...]. *)
Definition strided_rows (n step : nat) : list nat :=
  filter (fun r => r mod step =? 0) (seq 0 n).

Definition column_step (a : array2) (step j : nat) : result (list Q) :=
  if j <? ncols a
  then Ok (map (fun r => nth (r * ncols a + j) (cells a) 0%Q) (strided_rows (nrows a) step))
  else Raise IndexError.

(** [a[:, j]] *)
Definition column (a : array2) (j : nat) : result (list Q) := column_step a 1 j.

(** An RGB colour, a float array of shape [(3,)]. *)
Definition color : Type := (Q * Q * Q)%type.

Definition RED : color := (1%Q, 0%Q, 0%Q).
Definition GREEN : color := (0%Q, 1%Q, 0%Q).
Definition BLUE : color := (0%Q, 0%Q, 1%Q).
Definition CYAN : color := (0%Q, 1%Q, 1%Q).
Definition YELLOW : color := (1%Q, 1%Q, 0%Q).
Definition MAGENTA : color := (1%Q, 0%Q, 1%Q).

(** [c * s] on a colour array *)
Definition color_scale (c : color) (s : Q) : color :=
  let '(r, g, b) := c in (Qmult r s, Qmult g s, Qmult b s).

Definition Q_eq_dec (x y : Q) : {x = y} + {x <> y}.
Proof. decide equality; [apply Pos.eq_dec | apply Z.eq_dec]. Defined.

Definition color_eq_dec (c d : color) : {c = d} + {c <> d}.
Proof. repeat decide equality; apply Q_eq_dec. Defined.

(** ** Tensors, masks and the segmentation model *)

Inductive dtype : Type := Float64 | Float32 | UInt8.

Record tensor : Type := mk_tensor {
  t_dtype : dtype;
  t_shape : list nat;
  t_data : list Q
}.

(** A mask record: the dictionary with keys ['area'] and ['segmentation']. *)
Record mask : Type := mk_mask {
  area : Z;
  segmentation : ndarray bool
}.

(** The externally supplied segmentation model: an object with a
    [generate] method. *)
Record seg_model : Type := mk_seg_model {
  generate : ndarray Z -> list mask
}.

Inductive model_call : Type :=
| CallGenerate (img : ndarray Z).

(** ** The module namespace *)

Inductive pyobj : Type :=
| PyModule (name : string)
| PyTypingForm (name : string)
| PyColor (c : color)
| PyDef (name : string)
| PyTensorFn (f : tensor -> ndarray Q)
| PyArrayFn (f : array2 -> array2).

Definition namespace : Type := list (string * pyobj).

(** The top-level bindings of [viz_utils.py]: its imports (lines 1-7), its
    colour constants (lines 9-14) and its four [def]s. *)
Definition viz_utils_globals : namespace :=
  [ ("torch", PyModule "torch");
    ("cv2", PyModule "cv2");
    ("np", PyModule "numpy");
    ("plt", PyModule "matplotlib.pyplot");
    ("wandb", PyModule "wandb");
    ("os", PyModule "os");
    ("Optional", PyTypingForm "Optional");
    ("RED", PyColor RED);
    ("GREEN", PyColor GREEN);
    ("BLUE", PyColor BLUE);
    ("CYAN", PyColor CYAN);
    ("YELLOW", PyColor YELLOW);
    ("MAGENTA", PyColor MAGENTA);
    ("plot_trajs_and_points", PyDef "plot_trajs_and_points");
    ("generate_masks", PyDef "generate_masks");
    ("mask_to_img", PyDef "mask_to_img");
    ("visualize_sam_maps", PyDef "visualize_sam_maps") ]%string.

(** Resolution of a global name when a function body runs (neither name
    looked up below is a Python builtin). *)
Fixpoint lookup_global (G : namespace) (name : string) : result pyobj :=
  match G with
  | [] => Raise (NameError name)
  | (n, o) :: rest => if String.eqb n name then Ok o else lookup_global rest name
  end.

Definition call_array_fn (o : pyobj) (a : array2) : result array2 :=
  match o with
  | PyArrayFn f => Ok (f a)
  | _ => Raise TypeError
  end.

Definition call_tensor_fn (o : pyobj) (x : tensor) : result (ndarray Q) :=
  match o with
  | PyTensorFn f => Ok (f x)
  | _ => Raise TypeError
  end.

(** ** The overlay renderer: [plot_trajs_and_points] (lines 18-118) *)

(** The calls made on the axes object [ax]. *)
Record legend_placement : Type := mk_legend_placement {
  bbox_to_anchor : Q * Q;
  loc : string;
  ncol : nat
}.

Inductive draw_op : Type :=
| AxPlotLine (xs ys : list Q) (c : color) (label : option string) (alpha : Q)
| AxPlotMarker (x y : Q) (c : color) (label : option string) (alpha : Q) (markersize : Q)
| AxQuiver (xs ys us vs : list Q) (c : color) (scale : Q)
| AxLegend (placement : option legend_placement)
| AxSetAspect (aspect adjustable : string).

(** The arguments of a call, keyword by keyword. *)
Record plot_args : Type := mk_plot_args {
  list_trajs : list array2;
  list_points : list (list Q);
  traj_colors : list color;
  point_colors : list color;
  traj_labels : option (list string);
  point_labels : option (list string);
  traj_alphas : option (list Q);
  point_alphas : option (list Q);
  frame_dir : string;
  quiver_freq : Z;
  default_coloring : bool
}.

(** A call that passes only [list_trajs] and [list_points]. *)
Definition default_args (trajs : list array2) (points : list (list Q)) : plot_args :=
  {| list_trajs := trajs;
     list_points := points;
     traj_colors := [CYAN; MAGENTA];
     point_colors := [RED; GREEN];
     traj_labels := Some ["prediction"; "ground truth"]%string;
     point_labels := Some ["robot"; "goal"]%string;
     traj_alphas := None;
     point_alphas := None;
     frame_dir := "images/frames"%string;
     quiver_freq := 1%Z;
     default_coloring := true |}.

(** [alphas[i] if alphas is not None else 1.0] *)
Definition alpha_at (alphas : option (list Q)) (i : nat) : result Q :=
  match alphas with
  | Some l => index l i
  | None => Ok 1%Q
  end.

(** [x is not None] *)
Definition is_not_none {A : Type} (x : option A) : bool :=
  match x with
  | Some _ => true
  | None => false
  end.

Definition below_plot : legend_placement :=
  {| bbox_to_anchor := (0%Q, (-5 # 10)%Q); loc := "upper left"%string; ncol := 2 |}.

Section Renderer.

Variable G : namespace.
Variable a : plot_args.

Local Open Scope py_scope.

(** Lines 58-76: the line of trajectory [i]. *)
Definition plot_traj_line (i : nat) (traj : array2) : Py.t draw_op unit :=
  match traj_labels a with
  | None =>
      xs <- Py.lift (column traj 0) ;;
      ys <- Py.lift (column traj 1) ;;
      c <- Py.lift (index (traj_colors a) i) ;;
      al <- Py.lift (alpha_at (traj_alphas a) i) ;;
      Py.emit (AxPlotLine xs ys c None al)
  | Some labels =>
      xs <- Py.lift (column traj 0) ;;
      ys <- Py.lift (column traj 1) ;;
      c <- Py.lift (index (traj_colors a) i) ;;
      l <- Py.lift (index labels i) ;;
      al <- Py.lift (alpha_at (traj_alphas a) i) ;;
      Py.emit (AxPlotLine xs ys c (Some l) al)
  end.

(** Lines 81-90: the heading indicators of trajectory [i]. *)
Definition plot_traj_quiver (i : nat) (traj : array2) : Py.t draw_op unit :=
  if (2 <? ncols traj) && (0 <? quiver_freq a)%Z
  then
    f <- Py.lift (lookup_global G "gen_bearings_from_waypoints") ;;
    bearings <- Py.lift (call_array_fn f traj) ;;
    let step := Z.to_nat (quiver_freq a) in
    xs <- Py.lift (column_step traj step 0) ;;
    ys <- Py.lift (column_step traj step 1) ;;
    us <- Py.lift (column_step bearings step 0) ;;
    vs <- Py.lift (column_step bearings step 1) ;;
    c <- Py.lift (index (traj_colors a) i) ;;
    Py.emit (AxQuiver xs ys us vs (color_scale c (1 # 2)) 1%Q)
  else Py.ret tt.

Definition plot_traj (it : nat * array2) : Py.t draw_op unit :=
  let (i, traj) := it in
  plot_traj_line i traj ;;
  plot_traj_quiver i traj.

(** Lines 92-112: the marker of point [i]. *)
Definition plot_point (ip : nat * list Q) : Py.t draw_op unit :=
  let (i, pt) := ip in
  match point_labels a with
  | None =>
      x <- Py.lift (index pt 0) ;;
      y <- Py.lift (index pt 1) ;;
      c <- Py.lift (index (point_colors a) i) ;;
      al <- Py.lift (alpha_at (point_alphas a) i) ;;
      Py.emit (AxPlotMarker x y c None al 7%Q)
  | Some labels =>
      x <- Py.lift (index pt 0) ;;
      y <- Py.lift (index pt 1) ;;
      c <- Py.lift (index (point_colors a) i) ;;
      al <- Py.lift (alpha_at (point_alphas a) i) ;;
      l <- Py.lift (index labels i) ;;
      Py.emit (AxPlotMarker x y c (Some l) al 7%Q)
  end.

(** Lines 48-55: the four assertions. *)
Definition preconditions : Py.t draw_op unit :=
  Py.assert ((length (list_trajs a) <=? length (traj_colors a)) || default_coloring a)
            "Not enough colors for trajectories" ;;
  Py.assert (length (list_points a) <=? length (point_colors a))
            "Not enough colors for points" ;;
  Py.assert (match traj_labels a with
             | None => true
             | Some labels => (length (list_trajs a) =? length labels) || default_coloring a
             end)
            "Not enough labels for trajectories" ;;
  Py.assert (match point_labels a with
             | None => true
             | Some labels => length (list_points a) =? length labels
             end)
            "Not enough labels for points".

(** Lines 57-112: the two drawing loops. *)
Definition draw_loops : Py.t draw_op unit :=
  Py.for_each (enumerate (list_trajs a)) plot_traj ;;
  Py.for_each (enumerate (list_points a)) plot_point.

(** Lines 115-118: the legend and the aspect ratio. *)
Definition finish : Py.t draw_op unit :=
  (if is_not_none (traj_labels a) || is_not_none (point_labels a)
   then Py.emit (AxLegend None) ;; Py.emit (AxLegend (Some below_plot))
   else Py.ret tt) ;;
  Py.emit (AxSetAspect "equal" "box").

Definition plot_trajs_and_points : Py.t draw_op unit :=
  preconditions ;;
  draw_loops ;;
  finish.

End Renderer.

(** ** The model adapter: [generate_masks] (lines 121-124) *)

(** [np.moveaxis(x, 0, -1)]: the first axis becomes the last one. *)
Definition np_moveaxis_0_last (x : ndarray Q) : result (ndarray Q) :=
  match shape x with
  | [] => Raise AxisError
  | d0 :: rest =>
      let inner := size_of rest in
      Ok {| shape := rest ++ [d0];
            data := flat_map
                      (fun r => map (fun i => nth (i * inner + r) (data x) 0%Q) (seq 0 d0))
                      (seq 0 inner) |}
  end.

(** [float(v) -> uint8]: truncation towards zero, then the low eight bits. *)
Definition to_uint8 (v : Q) : Z :=
  ((Qnum v ÷ Z.pos (Qden v)) mod 256)%Z.

(** [(x * 255.).astype("uint8")] *)
Definition scale_to_uint8 (x : ndarray Q) : ndarray Z :=
  {| shape := shape x;
     data := map (fun v => to_uint8 (Qmult v 255)) (data x) |}.

Definition generate_masks (G : namespace) (viz_obs : tensor) (model : seg_model)
  : Py.t model_call (list mask) :=
  (f <- Py.lift (lookup_global G "to_numpy") ;;
   arr <- Py.lift (call_tensor_fn f viz_obs) ;;
   moved <- Py.lift (np_moveaxis_0_last arr) ;;
   let img := scale_to_uint8 moved in
   Py.emit (CallGenerate img) ;;
   Py.ret (generate model img))%py.

(** ** The mask converter: [mask_to_img] (lines 127-146) *)

(** The ['segmentation'] of a mask is a two-dimensional boolean grid;
    [m.shape[0]] and [m.shape[1]] read its extent. *)
Definition grid_rows (g : ndarray bool) : result nat := index (shape g) 0.
Definition grid_cols (g : ndarray bool) : result nat := index (shape g) 1.

(** The canvas: an array of shape [(rows, cols, 3)], kept pixel by pixel. *)
Record image : Type := mk_image {
  im_rows : nat;
  im_cols : nat;
  pixels : list color
}.

Definition WHITE : color := (1%Q, 1%Q, 1%Q).

(** [np.ones((rows, cols, 3))] *)
Definition np_ones (rows cols : nat) : image :=
  {| im_rows := rows; im_cols := cols; pixels := repeat WHITE (rows * cols) |}.

(** The float array of shape [(rows, cols, 3)] an [image] stands for. *)
Definition image_array (img : image) : ndarray Q :=
  {| shape := [im_rows img; im_cols img; 3];
     data := flat_map (fun c : color => let '(r, g, b) := c in [r; g; b]) (pixels img) |}.

(** [sorted(masks, key=lambda x: x['area'], reverse=True)]: a stable sort;
    masks of equal area keep the order they have in [masks]. *)
Fixpoint insert_by_area (x : mask) (l : list mask) : list mask :=
  match l with
  | [] => [x]
  | y :: ys => if (area x <? area y)%Z then y :: insert_by_area x ys else x :: y :: ys
  end.

Definition sorted_by_area (masks : list mask) : list mask :=
  fold_right insert_by_area [] masks.

Fixpoint overwrite (m : list bool) (c : color) (px : list color) : list color :=
  match m, px with
  | b :: m', p :: px' => (if b then c else p) :: overwrite m' c px'
  | _, _ => []
  end.

(** [img[m] = c] for a boolean grid [m]: the grid has to have the shape of
    the first two axes of [img]. *)
Definition set_masked (img : image) (m : ndarray bool) (c : color) : result image :=
  if list_eq_dec Nat.eq_dec (shape m) [im_rows img; im_cols img]
  then Ok {| im_rows := im_rows img; im_cols := im_cols img;
             pixels := overwrite (data m) c (pixels img) |}
  else Raise IndexError.

(** [np.resize(a, new_shape)]: the flattened buffer, repeated as often as
    needed and cut to the new size. *)
Definition np_resize (a : ndarray Q) (new_shape : list nat) : ndarray Q :=
  let n := size_of new_shape in
  let len := length (data a) in
  match len with
  | 0 => {| shape := new_shape; data := repeat 0%Q n |}
  | _ => let repeats := (n + len - 1) / len in
         {| shape := new_shape;
            data := firstn n (concat (repeat (data a) repeats)) |}
  end.

(** Line 139: [np.resize(img, (img.shape[-1], img.shape[0], img.shape[1]))]. *)
Definition axis_reorder (img : ndarray Q) : result (ndarray Q) :=
  rbind (index (rev (shape img)) 0) (fun d_last =>
  rbind (index (shape img) 0) (fun d0 =>
  rbind (index (shape img) 1) (fun d1 =>
  Ok (np_resize img [d_last; d0; d1])))).

(** [torch.from_numpy(a)], [t.unsqueeze(0)] and [t.to(torch.float32)]; the
    rounding of the values to single precision is not modelled. *)
Definition from_numpy (x : ndarray Q) : tensor :=
  {| t_dtype := Float64; t_shape := shape x; t_data := data x |}.

Definition unsqueeze0 (t : tensor) : tensor :=
  {| t_dtype := t_dtype t; t_shape := 1 :: t_shape t; t_data := t_data t |}.

Definition to_float32 (t : tensor) : tensor :=
  {| t_dtype := Float32; t_shape := t_shape t; t_data := t_data t |}.

(** [a[i, j, k]] on a three-dimensional array. *)
Definition get3 (x : ndarray Q) (i j k : nat) : result Q :=
  match shape x with
  | [d0; d1; d2] =>
      if (i <? d0) && (j <? d1) && (k <? d2)
      then index (data x) ((i * d1 + j) * d2 + k)
      else Raise IndexError
  | _ => Raise IndexError
  end.

Section Converter.

(** The state of the global NumPy generator and [np.random.random(3)]. *)
Variable rng_state : Type.
Variable random3 : rng_state -> color * rng_state.

(** [cv2.resize(img, (width, height))], from the OpenCV library. *)
Variable cv2_resize : ndarray Q -> nat * nat -> result (ndarray Q).

(** Lines 134-136: the painting loop. *)
Fixpoint paint_all (anns : list mask) (img : image) (s : rng_state)
  : result image * rng_state :=
  match anns with
  | [] => (Ok img, s)
  | ann :: rest =>
      let m := segmentation ann in
      let (c, s') := random3 s in
      match set_masked img m c with
      | Ok img' => paint_all rest img' s'
      | Raise e => (Raise e, s')
      end
  end.

(** Lines 132-136: the composited canvas. *)
Definition composite (masks : list mask) (s : rng_state) : result image * rng_state :=
  let sorted_anns := sorted_by_area masks in
  match index masks 0 with
  | Raise e => (Raise e, s)
  | Ok first =>
      match grid_rows (segmentation first), grid_cols (segmentation first) with
      | Ok rows, Ok cols => paint_all sorted_anns (np_ones rows cols) s
      | Raise e, _ => (Raise e, s)
      | _, Raise e => (Raise e, s)
      end
  end.

(** Lines 138-142: resize, axis reordering, batch axis, single precision. *)
Definition to_model_input (img : image) : result tensor :=
  rbind (cv2_resize (image_array img) (256, 256)) (fun resized =>
  rbind (axis_reorder resized) (fun reordered =>
  Ok (to_float32 (unsqueeze0 (from_numpy reordered))))).

Definition mask_to_img (masks : list mask) (s : rng_state) : result tensor * rng_state :=
  match composite masks s with
  | (Ok img, s') => (to_model_input img, s')
  | (Raise e, s') => (Raise e, s')
  end.

(** The colours drawn by the first [n] calls of [np.random.random(3)]. *)
Fixpoint draws (n : nat) (s : rng_state) : list color :=
  match n with
  | 0 => []
  | S n' => let (c, s') := random3 s in c :: draws n' s'
  end.

End Converter.

(** ** Inputs used in examples *)

(** The trajectory [[[0,0],[1,1],[2,0]]] and the point [[2,2]]. *)
Definition zigzag : array2 :=
  {| nrows := 3; ncols := 2; cells := [0; 0; 1; 1; 2; 0]%Q |}.

Definition corner : list Q := [2; 2]%Q.

Definition unlabelled (trajs : list array2) (points : list (list Q)) : plot_args :=
  {| list_trajs := trajs;
     list_points := points;
     traj_colors := [CYAN; MAGENTA];
     point_colors := [RED; GREEN];
     traj_labels := None;
     point_labels := None;
     traj_alphas := None;
     point_alphas := None;
     frame_dir := "images/frames"%string;
     quiver_freq := 1%Z;
     default_coloring := true |}.

(** A trajectory with heading: three poses [(x, y, cos, sin)]. *)
Definition with_heading : array2 :=
  {| nrows := 3; ncols := 4;
     cells := [0; 0; 1; 0;  1; 1; 1; 0;  2; 0; 0; 1]%Q |}.

(** The four assertion messages. *)
Definition assertion_messages : list string :=
  [ "Not enough colors for trajectories";
    "Not enough colors for points";
    "Not enough labels for trajectories";
    "Not enough labels for points" ]%string.

(** The precondition violations the specification lists. *)
Definition precondition_violated (a : plot_args) : Prop :=
  (length (list_trajs a) > length (traj_colors a) /\ default_coloring a = false)
  \/ length (list_points a) > length (point_colors a)
  \/ (exists labels, traj_labels a = Some labels
                     /\ length labels <> length (list_trajs a)
                     /\ default_coloring a = false)
  \/ (exists labels, point_labels a = Some labels
                     /\ length labels <> length (list_points a)).

Definition is_quiver (op : draw_op) : bool :=
  match op with
  | AxQuiver _ _ _ _ _ _ => true
  | _ => false
  end.

Definition is_legend (op : draw_op) : bool :=
  match op with
  | AxLegend _ => true
  | _ => false
  end.

Definition is_set_aspect (op : draw_op) : bool :=
  match op with
  | AxSetAspect _ _ => true
  | _ => false
  end.

(** The calls the two drawing loops make: lines, markers and quivers. *)
Definition is_drawing (op : draw_op) : Prop :=
  is_legend op = false /\ is_set_aspect op = false.

(** The calls of [ax.plot]: lines and markers. *)
Definition is_plot (op : draw_op) : Prop :=
  match op with
  | AxPlotLine _ _ _ _ _ | AxPlotMarker _ _ _ _ _ _ => True
  | _ => False
  end.

(** The line of a trajectory, in a colour of [colors]. *)
Definition line_colored_from (colors : list color) (op : draw_op) : Prop :=
  match op with
  | AxPlotLine _ _ c _ _ => In c colors
  | _ => False
  end.

(** What may be raised while drawing: never an assertion failure. *)
Definition drawing_error (e : exn) : Prop :=
  e = IndexError \/ e = TypeError \/ exists name, e = NameError name.

(** The legend calls of lines 116-117. *)
Definition legend_ops (a : plot_args) : list draw_op :=
  if is_not_none (traj_labels a) || is_not_none (point_labels a)
  then [AxLegend None; AxLegend (Some below_plot)]
  else [].

(** Two trajectories, but a single alpha. *)
Definition one_alpha_short : plot_args :=
  {| list_trajs := [zigzag; zigzag];
     list_points := [corner];
     traj_colors := [CYAN; MAGENTA];
     point_colors := [RED; GREEN];
     traj_labels := None;
     point_labels := None;
     traj_alphas := Some [(1 # 2)%Q];
     point_alphas := None;
     frame_dir := "images/frames"%string;
     quiver_freq := 1%Z;
     default_coloring := true |}.

(** More trajectories than colours under default colouring, and more
    points than point colours. *)
Definition crowded : plot_args :=
  unlabelled [zigzag; zigzag; zigzag] [corner; corner; corner].

(** A trajectory for which lines 81-90 draw no heading indicator. *)
Definition no_indicator (a : plot_args) (t : array2) : Prop :=
  ncols t <= 2 \/ (quiver_freq a <= 0)%Z.

(** A normalised image tensor of shape [(3, 1, 2)], a model that finds
    nothing, and the conversion [to_numpy] would stand for. *)
Definition two_pixels : tensor :=
  {| t_dtype := Float32;
     t_shape := [3; 1; 2];
     t_data := [0; 1 # 2;  1; 1 # 4;  1 # 3; 1]%Q |}.

Definition blind_model : seg_model := {| generate := fun _ => [] |}.

Definition tensor_array (x : tensor) : ndarray Q :=
  {| shape := t_shape x; data := t_data x |}.

(** ** Reading the canvas and the masks *)

(** [img[y, x]], the colour of a pixel of the canvas. *)
Definition pixel_at (img : image) (y x : nat) : color :=
  nth (y * im_cols img + x) (pixels img) WHITE.

(** [m['segmentation'][y, x]] *)
Definition covers (m : mask) (y x : nat) : bool :=
  match shape (segmentation m) with
  | [_; cols] => nth (y * cols + x) (data (segmentation m)) false
  | _ => false
  end.

(** Descending area: [m] is not smaller than [m']. *)
Definition area_ge (m m' : mask) : Prop := (area m' <= area m)%Z.

(** A mask whose grid has the extent [(rows, cols)]. *)
Definition grid_of (rows cols : nat) (m : mask) : Prop :=
  shape (segmentation m) = [rows; cols] /\ wf_array (segmentation m).

Definition is_background (c : color) : bool :=
  if color_eq_dec c WHITE then true else false.

(** The distinct colours of an image other than the background. *)
Definition foreground_colors (img : image) : list color :=
  nodup color_eq_dec (filter (fun c => negb (is_background c)) (pixels img)).

Section Generator.

Variable rng_state : Type.
Variable random3 : rng_state -> color * rng_state.

(** The generator state after [n] calls of [np.random.random(3)]. *)
Fixpoint after_draws (n : nat) (s : rng_state) : rng_state :=
  match n with
  | 0 => s
  | S n' => after_draws n' (snd (random3 s))
  end.

End Generator.

(** The colour a pixel ends with when the grids [bits] are painted in
    order with the colours [cs] over the colour [init]. *)
Fixpoint final_color (bits : list bool) (cs : list color) (init : color) : color :=
  match bits, cs with
  | b :: bits', c :: cs' => final_color bits' cs' (if b then c else init)
  | _, _ => init
  end.

(** What [mask_to_img] relies on from [cv2.resize] for a three-channel
    image: the result has the requested extent and the same channels. *)
Definition resizes_to_requested_size
  (cv2_resize : ndarray Q -> nat * nat -> result (ndarray Q)) : Prop :=
  forall (img : ndarray Q) (rows cols width height : nat),
    shape img = [rows; cols; 3] ->
    wf_array img ->
    0 < rows -> 0 < cols -> 0 < width -> 0 < height ->
    exists out,
      cv2_resize img (width, height) = Ok out
      /\ shape out = [height; width; 3]
      /\ wf_array out.

(** A resize by nearest-neighbour sampling, one function with that
    behaviour. *)
Definition nearest_resize (img : ndarray Q) (dsize : nat * nat) : result (ndarray Q) :=
  let (width, height) := dsize in
  match shape img with
  | [rows; cols; channels] =>
      if (0 <? rows) && (0 <? cols) && (0 <? width) && (0 <? height)
      then Ok {| shape := [height; width; channels];
                 data :=
                   flat_map (fun y =>
                     flat_map (fun x =>
                       map (fun c =>
                              nth (((y * rows / height) * cols + x * cols / width) * channels + c)
                                  (data img) 0%Q)
                           (seq 0 channels))
                       (seq 0 width))
                     (seq 0 height) |}
      else Raise CvError
  | _ => Raise CvError
  end.

(** A small generator: the [n]-th draw is [(n/7, 1/3, 1/2)]. *)
Definition counter_random3 (n : nat) : color * nat :=
  ((Z.of_nat n # 7, 1 # 3, 1 # 2)%Q, S n).

(** Two masks on a 2 x 2 grid: a small one on the top-left pixel, listed
    first, and a large one on the whole top row and the bottom-left pixel. *)
Definition small_mask : mask :=
  {| area := 1; segmentation := {| shape := [2; 2]; data := [true; false; false; false] |} |}.

Definition large_mask : mask :=
  {| area := 3; segmentation := {| shape := [2; 2]; data := [true; true; true; false] |} |}.

(** A resized canvas, 256 x 256 x 3: the top-left pixel is
    [(1/4, 1/2, 3/4)], every other pixel is white. *)
Definition one_dot : ndarray Q :=
  {| shape := [256; 256; 3];
     data := [1 # 4; 1 # 2; 3 # 4]%Q ++ repeat 1%Q (256 * 256 * 3 - 3) |}.

(** A computation whose trace holds only [evs] events and which raises
    only [errs] exceptions. *)
Definition respects {E A : Type} (evs : E -> Prop) (errs : exn -> Prop)
  (m : Py.t E A) : Prop :=
  Forall evs (fst m) /\ forall e, snd m = Raise e -> errs e.

(** ** What a completed call draws *)

(** The column [j] of every row of [t]. *)
Definition rows_column (t : array2) (j : nat) : list Q :=
  map (fun r => nth (r * ncols t + j) (cells t) 0%Q) (seq 0 (nrows t)).

Definition label_at (labels : option (list string)) (i : nat) : option string :=
  match labels with
  | Some l => Some (nth i l EmptyString)
  | None => None
  end.

Definition alpha_or_one (alphas : option (list Q)) (i : nat) : Q :=
  match alphas with
  | Some l => nth i l 1%Q
  | None => 1%Q
  end.

(** The line of trajectory [i] and the marker of point [i]. *)
Definition line_for (a : plot_args) (it : nat * array2) : draw_op :=
  let (i, t) := it in
  AxPlotLine (rows_column t 0) (rows_column t 1)
             (nth i (traj_colors a) WHITE)
             (label_at (traj_labels a) i)
             (alpha_or_one (traj_alphas a) i).

Definition marker_for (a : plot_args) (ip : nat * list Q) : draw_op :=
  let (i, pt) := ip in
  AxPlotMarker (nth 0 pt 0%Q) (nth 1 pt 0%Q)
               (nth i (point_colors a) WHITE)
               (label_at (point_labels a) i)
               (alpha_or_one (point_alphas a) i)
               7%Q.

(** An optional list, when given, has an entry at position [i]. *)
Definition listed {A : Type} (xs : option (list A)) (i : nat) : Prop :=
  forall l, xs = Some l -> i < length l.

(** What the loop bodies need of trajectory [i] and of point [i]. *)
Definition traj_drawable (a : plot_args) (i : nat) (t : array2) : Prop :=
  2 <= ncols t
  /\ no_indicator a t
  /\ i < length (traj_colors a)
  /\ listed (traj_labels a) i
  /\ listed (traj_alphas a) i.

Definition point_drawable (a : plot_args) (i : nat) (pt : list Q) : Prop :=
  2 <= length pt
  /\ i < length (point_colors a)
  /\ listed (point_alphas a) i
  /\ listed (point_labels a) i.

Definition all_drawable (a : plot_args) : Prop :=
  (forall i t, nth_error (list_trajs a) i = Some t -> traj_drawable a i t)
  /\ (forall i pt, nth_error (list_points a) i = Some pt -> point_drawable a i pt).

(** The same call with another [quiver_freq] and another [frame_dir]. *)
Definition with_quiver_and_frames (a : plot_args) (q : Z) (dir : string) : plot_args :=
  {| list_trajs := list_trajs a;
     list_points := list_points a;
     traj_colors := traj_colors a;
     point_colors := point_colors a;
     traj_labels := traj_labels a;
     point_labels := point_labels a;
     traj_alphas := traj_alphas a;
     point_alphas := point_alphas a;
     frame_dir := dir;
     quiver_freq := q;
     default_coloring := default_coloring a |}.

(** The canvas of [small_mask] and [large_mask] under [counter_random3]. *)
Definition two_mask_canvas : image :=
  {| im_rows := 2; im_cols := 2;
     pixels := [ (1 # 7, 1 # 3, 1 # 2)%Q; (0 # 7, 1 # 3, 1 # 2)%Q;
                 (0 # 7, 1 # 3, 1 # 2)%Q; WHITE ] |}.

(** A mask on a 1 x 2 grid. *)
Definition strip_mask : mask :=
  {| area := 2; segmentation := {| shape := [1; 2]; data := [true; true] |} |}.

(** The calls by what they draw: a trajectory (its line, its heading
    indicators), a point, or the closing calls. *)
Definition of_trajectory (op : draw_op) : Prop :=
  match op with
  | AxPlotLine _ _ _ _ _ | AxQuiver _ _ _ _ _ _ => True
  | _ => False
  end.

Definition of_point (op : draw_op) : Prop :=
  match op with
  | AxPlotMarker _ _ _ _ _ _ => True
  | _ => False
  end.

Definition of_finish (op : draw_op) : Prop :=
  match op with
  | AxLegend _ | AxSetAspect _ _ => True
  | _ => False
  end.

(** ** The diagnostic logger: [visualize_sam_maps] (lines 149-220) *)

(** An RGBA pixel, and the image [show_anns] hands to [imshow]: an array
    of shape [(rows, cols, 4)], kept pixel by pixel. *)
Definition rgba : Type := (color * Q)%type.

Record overlay : Type := mk_overlay {
  ov_rows : nat;
  ov_cols : nat;
  ov_pixels : list rgba
}.

(** The calls made on Matplotlib, on the four axes of a figure (numbered
    as in [ax[0]] ... [ax[3]]), on wandb and on the standard output. *)
Inductive panel_event : Type :=
| PltSubplots (nrows ncols : nat)
| ImshowBytes (axis : nat) (img : ndarray Z)
| SetAutoscaleOn (axis : nat) (b : bool)
| ImshowOverlay (axis : nat) (img : overlay)
| SetTitle (axis : nat) (title : string)
| AxisOff (axis : nat)
| PltSavefig (path : string)
| WandbImage (path : string)
| WandbLog (key : string) (images : list string) (commit : bool)
| PrintLine (text : string).

(** The exceptions of the earlier functions, and the one of [i % 0]. *)
Inductive py_exn : Type :=
| Std (e : exn)
| ZeroDivisionError.

Inductive outcome (A : Type) : Type :=
| Returned (a : A)
| Raised (e : py_exn).

Arguments Returned {A} a.
Arguments Raised {A} e.

(** Computations that call out, may raise, and use the global generator. *)
Module Logger.

Definition t (St A : Type) : Type := St -> (list panel_event * outcome A) * St.

Definition ret {St A : Type} (a : A) : t St A := fun s => (([], Returned a), s).

Definition raise {St A : Type} (e : py_exn) : t St A := fun s => (([], Raised e), s).

Definition emit {St : Type} (ev : panel_event) : t St unit :=
  fun s => (([ev], Returned tt), s).

Definition lift {St A : Type} (r : result A) : t St A :=
  fun s => match r with
           | Ok a => (([], Returned a), s)
           | Raise e => (([], Raised (Std e)), s)
           end.

Definition bind {St A B : Type} (m : t St A) (k : A -> t St B) : t St B :=
  fun s => match m s with
           | ((tr, Returned a), s') =>
               match k a s' with
               | ((tr', r), s'') => ((tr ++ tr', r), s'')
               end
           | ((tr, Raised e), s') => ((tr, Raised e), s')
           end.

(** A loop that carries a value from one round to the next. *)
Fixpoint fold {St A B : Type} (xs : list A) (acc : B) (body : A -> B -> t St B)
  : t St B :=
  match xs with
  | [] => ret acc
  | x :: rest => bind (body x acc) (fun acc' => fold rest acc' body)
  end.

End Logger.

Declare Scope logger_scope.
Delimit Scope logger_scope with logger.
Notation "x <- m ;; k" := (Logger.bind m (fun x => k))
  (at level 61, m at next level, right associativity) : logger_scope.
Notation "m ;; k" := (Logger.bind m (fun _ => k))
  (at level 61, right associativity) : logger_scope.

(** [np.ones((rows, cols, 4))] and [img[:, :, 3] = 0]. *)
Definition np_ones4 (rows cols : nat) : overlay :=
  {| ov_rows := rows; ov_cols := cols; ov_pixels := repeat (WHITE, 1%Q) (rows * cols) |}.

Definition clear_alpha (img : overlay) : overlay :=
  {| ov_rows := ov_rows img; ov_cols := ov_cols img;
     ov_pixels := map (fun p : rgba => (fst p, 0%Q)) (ov_pixels img) |}.

Fixpoint overwrite_rgba (m : list bool) (c : rgba) (px : list rgba) : list rgba :=
  match m, px with
  | b :: m', p :: px' => (if b then c else p) :: overwrite_rgba m' c px'
  | _, _ => []
  end.

(** [img[m] = color_mask] on the overlay. *)
Definition set_masked_rgba (img : overlay) (m : ndarray bool) (c : rgba) : result overlay :=
  if list_eq_dec Nat.eq_dec (shape m) [ov_rows img; ov_cols img]
  then Ok {| ov_rows := ov_rows img; ov_cols := ov_cols img;
             ov_pixels := overwrite_rgba (data m) c (ov_pixels img) |}
  else Raise IndexError.

(** [f'maps_{i}.png'] and [os.path.join("examples", ...)]. *)
Definition maps_name (i : nat) : string :=
  ("maps_" ++ NilEmpty.string_of_uint (Nat.to_uint i) ++ ".png")%string.

Definition os_path_join (dir name : string) : string :=
  (dir ++ "/" ++ name)%string.

Section PanelLogger.

Variable rng_state : Type.
Variable random3 : rng_state -> color * rng_state.

(** How the object bound to an ambient name iterates into images. *)
Variable as_batch : pyobj -> result (list tensor).

Variable G : namespace.

Local Open Scope logger_scope.

(** Lines 165-168: the painting loop of [show_anns]. *)
Fixpoint paint_overlay (anns : list mask) (img : overlay)
  : Logger.t rng_state overlay :=
  match anns with
  | [] => Logger.ret img
  | ann :: rest =>
      fun s =>
        let m := segmentation ann in
        let (c, s') := random3 s in
        let color_mask : rgba := (c, (35 # 100)%Q) in
        match set_masked_rgba img m color_mask with
        | Ok img' => paint_overlay rest img' s'
        | Raise e => (([], Raised (Std e)), s')
        end
  end.

(** Lines 156-169: the nested [show_anns(anns, ax)]. *)
Definition show_anns (anns : list mask) (ax : nat) : Logger.t rng_state unit :=
  if length anns =? 0
  then Logger.ret tt
  else
    let sorted_anns := sorted_by_area anns in
    Logger.emit (SetAutoscaleOn ax true) ;;
    largest <- Logger.lift (index sorted_anns 0) ;;
    rows <- Logger.lift (grid_rows (segmentation largest)) ;;
    cols <- Logger.lift (grid_cols (segmentation largest)) ;;
    img <- paint_overlay sorted_anns (clear_alpha (np_ones4 rows cols)) ;;
    Logger.emit (ImshowOverlay ax img).

(** [np.moveaxis(to_numpy(x), 0, -1)] (lines 177-178). *)
Definition to_moved (x : tensor) : Logger.t rng_state (ndarray Q) :=
  f <- Logger.lift (lookup_global G "to_numpy") ;;
  arr <- Logger.lift (call_tensor_fn f x) ;;
  Logger.lift (np_moveaxis_0_last arr).

(** Lines 175-220: one round of the loop that is due for a figure. *)
Definition panel (i : nat) (obs goal : tensor) (obs_map goal_map : list mask)
  (wandb_list : list string) : Logger.t rng_state (list string) :=
  Logger.emit (PltSubplots 1 4) ;;
  obs_moved <- to_moved obs ;;
  goal_moved <- to_moved goal ;;
  let obs_img := scale_to_uint8 obs_moved in
  let goal_img := scale_to_uint8 goal_moved in
  Logger.emit (ImshowBytes 0 obs_img) ;;
  Logger.emit (ImshowBytes 1 goal_img) ;;
  show_anns obs_map 2 ;;
  show_anns goal_map 3 ;;
  Logger.emit (SetTitle 0 "Observation") ;;
  Logger.emit (SetTitle 1 "Goal") ;;
  Logger.emit (SetTitle 2 "Obs Map") ;;
  Logger.emit (SetTitle 3 "Goal Map") ;;
  Logger.emit (AxisOff 0) ;;
  Logger.emit (AxisOff 1) ;;
  Logger.emit (AxisOff 2) ;;
  Logger.emit (AxisOff 3) ;;
  let visualize_path := "examples"%string in
  let map_save_path := os_path_join visualize_path (maps_name i) in
  Logger.emit (PltSavefig map_save_path) ;;
  Logger.emit (WandbImage map_save_path) ;;
  let wandb_list' := wandb_list ++ [map_save_path] in
  Logger.emit (WandbLog "examples" wandb_list' false) ;;
  Logger.emit (PrintLine ("Finished generating masks for " ++ maps_name i ++ ".")%string) ;;
  Logger.ret wandb_list'.

(** Line 174: [if i % viz_freq == 0]. *)
Definition due (i : nat) (viz_freq : Z) : Logger.t rng_state bool :=
  if (viz_freq =? 0)%Z
  then Logger.raise ZeroDivisionError
  else Logger.ret ((Z.of_nat i mod viz_freq) =? 0)%Z.

Definition visualize_sam_maps (viz_obs viz_goal : tensor)
  (obs_map goal_map : list mask) (viz_freq : Z) : Logger.t rng_state unit :=
  let wandb_list : list string := [] in
  obs_images <- Logger.lift (lookup_global G "batch_viz_obs_images") ;;
  goal_images <- Logger.lift (lookup_global G "batch_viz_goal_images") ;;
  obs_batch <- Logger.lift (as_batch obs_images) ;;
  goal_batch <- Logger.lift (as_batch goal_images) ;;
  Logger.fold (enumerate (combine obs_batch goal_batch)) wandb_list
    (fun (round : nat * (tensor * tensor)) (wandb_list : list string) =>
       let '(i, (obs, goal)) := round in
       d <- due i viz_freq ;;
       if d : bool
       then panel i obs goal obs_map goal_map wandb_list
       else Logger.ret wandb_list) ;;
  Logger.ret tt.

End PanelLogger.

(** A namespace in which the two ambient names of [visualize_sam_maps]
    are bound, and a reading of what they are bound to. *)
Definition with_batches : namespace :=
  ("batch_viz_obs_images"%string, PyDef "obs batch")
  :: ("batch_viz_goal_images"%string, PyDef "goal batch")
  :: viz_utils_globals.

Definition one_image_batch (o : pyobj) : result (list tensor) :=
  match o with
  | PyDef _ => Ok [two_pixels]
  | _ => Raise TypeError
  end.

(** The files a trace saves and the image lists it logs, in order. *)
Definition saved_paths (tr : list panel_event) : list string :=
  flat_map (fun ev => match ev with PltSavefig p => [p] | _ => [] end) tr.

Definition logged_batches (tr : list panel_event) : list (list string) :=
  flat_map (fun ev => match ev with WandbLog _ images _ => [images] | _ => [] end) tr.

(** An event that neither saves nor logs. *)
Definition quiet (ev : panel_event) : Prop :=
  match ev with
  | PltSavefig _ | WandbLog _ _ _ => False
  | _ => True
  end.

(** The path of the figure of round [i], and the rounds due among the
    first [n]. *)
Definition figure_path (i : nat) : string := os_path_join "examples" (maps_name i).

Definition due_rounds (n : nat) (viz_freq : Z) : list nat :=
  filter (fun i => (Z.of_nat i mod viz_freq =? 0)%Z) (seq 0 n).

(** A namespace in which [to_numpy] is bound as well, and a batch of
    three images. *)
Definition with_batches_and_helper : namespace :=
  ("to_numpy"%string, PyTensorFn tensor_array) :: with_batches.

Definition three_image_batch (o : pyobj) : result (list tensor) :=
  match o with
  | PyDef _ => Ok [two_pixels; two_pixels; two_pixels]
  | _ => Raise TypeError
  end.

(* ================================================================== *)
(** * Properties *)

(** ** Laws of the trace-and-result computations *)

Section PyLaws.

Context {E : Type}.
Implicit Types (evs : E -> Prop) (errs : exn -> Prop).

Lemma bind_lift_ok {A B : Type} (x : A) (k : A -> Py.t E B) :
  Py.bind (Py.lift (Ok x)) k = k x.
Proof. unfold Py.bind, Py.lift. destruct (k x); reflexivity. Qed.

Lemma bind_lift_raise {A B : Type} (e : exn) (k : A -> Py.t E B) :
  Py.bind (Py.lift (Raise e)) k = ([], Raise e).
Proof. reflexivity. Qed.

Lemma bind_ret {A B : Type} (x : A) (k : A -> Py.t E B) :
  Py.bind (Py.ret x) k = k x.
Proof. apply bind_lift_ok. Qed.

Lemma bind_ok {A B : Type} (m : Py.t E A) (k : A -> Py.t E B) tr x :
  m = (tr, Ok x) ->
  Py.bind m k = (tr ++ fst (k x), snd (k x)).
Proof. intros ->. unfold Py.bind. destruct (k x); reflexivity. Qed.

Lemma bind_raise {A B : Type} (m : Py.t E A) (k : A -> Py.t E B) tr e :
  m = (tr, Raise e) ->
  Py.bind m k = (tr, Raise e).
Proof. intros ->. reflexivity. Qed.

Lemma respects_ret {A : Type} evs errs (x : A) : respects evs errs (Py.ret x).
Proof. split; [constructor | discriminate]. Qed.

Lemma respects_emit evs errs (ev : E) : evs ev -> respects evs errs (Py.emit ev).
Proof. intros H. split; [repeat constructor; exact H | discriminate]. Qed.

Lemma respects_lift {A : Type} evs errs (r : result A) :
  (forall e, r = Raise e -> errs e) -> respects evs errs (Py.lift r).
Proof. intros H. split; [constructor | exact H]. Qed.

Lemma respects_bind {A B : Type} evs errs (m : Py.t E A) (k : A -> Py.t E B) :
  respects evs errs m ->
  (forall x, respects evs errs (k x)) ->
  respects evs errs (Py.bind m k).
Proof.
  unfold respects. intros [Hm He] Hk. destruct m as [tr [x | e]]; simpl in *.
  - destruct (Hk x) as [Hk1 Hk2]. destruct (k x) as [tr' r]. simpl in *.
    split; [apply Forall_app; split; assumption | exact Hk2].
  - split; [assumption | intros e0 [= <-]; apply He; reflexivity].
Qed.

Lemma respects_for_each {A : Type} evs errs (xs : list A) (body : A -> Py.t E unit) :
  (forall x, In x xs -> respects evs errs (body x)) ->
  respects evs errs (Py.for_each xs body).
Proof.
  induction xs as [| x xs IH]; intros H; simpl.
  - apply respects_ret.
  - apply respects_bind.
    + apply H. left. reflexivity.
    + intros _. apply IH. intros y Hy. apply H. right. exact Hy.
Qed.

Lemma respects_weaken {A : Type} evs evs' errs errs' (m : Py.t E A) :
  (forall ev, evs ev -> evs' ev) ->
  (forall e, errs e -> errs' e) ->
  respects evs errs m -> respects evs' errs' m.
Proof.
  intros H1 H2 [Ha Hb]. split.
  - eapply Forall_impl; [exact H1 | exact Ha].
  - intros e He. apply H2, Hb, He.
Qed.

End PyLaws.

(** ** What indexing can raise *)

Lemma index_raises {A : Type} (xs : list A) (i : nat) (e : exn) :
  index xs i = Raise e -> e = IndexError.
Proof. unfold index. destruct (nth_error xs i); congruence. Qed.

Lemma index_ok_lt {A : Type} (xs : list A) (i : nat) (x : A) :
  index xs i = Ok x -> i < length xs /\ In x xs.
Proof.
  unfold index. destruct (nth_error xs i) eqn:H; [| discriminate].
  intros [= <-]. split.
  - apply nth_error_Some. congruence.
  - eapply nth_error_In. exact H.
Qed.

Lemma index_lt_ok {A : Type} (xs : list A) (i : nat) :
  i < length xs -> exists x, index xs i = Ok x.
Proof.
  intros H. unfold index. destruct (nth_error xs i) eqn:Hn.
  - eexists. reflexivity.
  - apply nth_error_None in Hn. lia.
Qed.

Lemma index_ge_raise {A : Type} (xs : list A) (i : nat) :
  length xs <= i -> index xs i = Raise IndexError.
Proof.
  intros H. unfold index. apply nth_error_None in H. rewrite H. reflexivity.
Qed.

Lemma column_step_raises (t : array2) (step j : nat) (e : exn) :
  column_step t step j = Raise e -> e = IndexError.
Proof. unfold column_step. destruct (j <? ncols t); congruence. Qed.

Lemma column_raises (t : array2) (j : nat) (e : exn) :
  column t j = Raise e -> e = IndexError.
Proof. apply column_step_raises. Qed.

Lemma alpha_at_raises (alphas : option (list Q)) (i : nat) (e : exn) :
  alpha_at alphas i = Raise e -> e = IndexError.
Proof. destruct alphas; simpl; [apply index_raises | discriminate]. Qed.

Lemma lookup_global_raises (G : namespace) (name : string) (e : exn) :
  lookup_global G name = Raise e -> e = NameError name.
Proof.
  induction G as [| [n o] G IH]; simpl.
  - congruence.
  - destruct (String.eqb n name); [discriminate | exact IH].
Qed.

Lemma call_array_fn_raises (o : pyobj) (t : array2) (e : exn) :
  call_array_fn o t = Raise e -> e = TypeError.
Proof. destruct o; simpl; congruence. Qed.

Create HintDb drawing.
#[local] Hint Unfold drawing_error : drawing.
#[local] Hint Resolve index_raises column_raises column_step_raises
  alpha_at_raises lookup_global_raises call_array_fn_raises : drawing.

Ltac drawing_step :=
  first
    [ apply respects_ret
    | apply respects_emit
    | apply respects_bind; [| intro]
    | apply respects_lift; intros ? ?Hraise;
      first
        [ solve [left; eauto with drawing]
        | solve [right; left; eauto with drawing]
        | solve [right; right; eexists; eauto with drawing] ] ].

(** ** The overlay renderer *)

Section RendererFacts.

Variable G : namespace.
Variable a : plot_args.

Lemma plot_traj_line_respects (i : nat) (t : array2) :
  respects is_plot drawing_error (plot_traj_line a i t).
Proof.
  unfold plot_traj_line.
  destruct (traj_labels a); repeat drawing_step; exact I.
Qed.

Lemma plot_traj_quiver_respects (i : nat) (t : array2) :
  respects is_drawing drawing_error (plot_traj_quiver G a i t).
Proof.
  unfold plot_traj_quiver.
  destruct ((2 <? ncols t) && (0 <? quiver_freq a)%Z);
    repeat drawing_step; split; reflexivity.
Qed.

Lemma plot_traj_respects (it : nat * array2) :
  respects is_drawing drawing_error (plot_traj G a it).
Proof.
  destruct it as [i t]. unfold plot_traj. apply respects_bind.
  - eapply respects_weaken; [| | apply plot_traj_line_respects]; auto.
    intros [] H; try contradiction; split; reflexivity.
  - intros _. apply plot_traj_quiver_respects.
Qed.

Lemma plot_point_respects (ip : nat * list Q) :
  respects is_plot drawing_error (plot_point a ip).
Proof.
  destruct ip as [i pt]. unfold plot_point.
  destruct (point_labels a); repeat drawing_step; exact I.
Qed.

Lemma draw_loops_respects :
  respects is_drawing drawing_error (draw_loops G a).
Proof.
  unfold draw_loops. apply respects_bind.
  - apply respects_for_each. intros it _. apply plot_traj_respects.
  - intros _. apply respects_for_each. intros ip _.
    eapply respects_weaken; [| | apply plot_point_respects]; auto.
    intros [] H; try contradiction; split; reflexivity.
Qed.

Lemma finish_eval :
  finish a = (legend_ops a ++ [AxSetAspect "equal" "box"], Ok tt).
Proof.
  unfold finish, legend_ops.
  destruct (is_not_none (traj_labels a) || is_not_none (point_labels a)); reflexivity.
Qed.

(** The four assertions draw nothing, and fail exactly on a violation. *)
Lemma preconditions_eval :
  (precondition_violated a
   /\ exists msg, In msg assertion_messages
                  /\ preconditions a = ([], Raise (AssertionError msg)))
  \/ (~ precondition_violated a /\ preconditions a = ([], Ok tt)).
Proof.
  unfold preconditions, precondition_violated, assertion_messages, Py.assert.
  destruct (default_coloring a) eqn:Hd.
  - rewrite !orb_true_r. rewrite bind_ret.
    destruct (Nat.leb_spec (length (list_points a)) (length (point_colors a))) as [Hp | Hp].
    + rewrite bind_ret.
      assert (Hl : (match traj_labels a with
                    | Some labels => (length (list_trajs a) =? length labels) || true
                    | None => true
                    end) = true)
        by (destruct (traj_labels a); [apply orb_true_r | reflexivity]).
      rewrite Hl, bind_ret. clear Hl.
      destruct (point_labels a) as [pl |] eqn:Hpl.
      * destruct (Nat.eqb_spec (length (list_points a)) (length pl)) as [He | He].
        -- right. split; [| reflexivity].
           intros [[_ H] | [H | [(l & _ & _ & H) | (l & [= <-] & H)]]];
             try discriminate; try lia.
        -- left. split.
           ++ right; right; right. exists pl. split; [reflexivity | congruence].
           ++ eexists. split; [| reflexivity]. simpl. tauto.
      * right. split; [| reflexivity].
        intros [[_ H] | [H | [(l & _ & _ & H) | (l & H & _)]]];
          try discriminate; try lia.
    + left. split.
      * right; left. lia.
      * eexists. split; [| reflexivity]. simpl. tauto.
  - rewrite !orb_false_r.
    destruct (Nat.leb_spec (length (list_trajs a)) (length (traj_colors a))) as [Ht | Ht].
    + rewrite bind_ret.
      destruct (Nat.leb_spec (length (list_points a)) (length (point_colors a))) as [Hp | Hp].
      * rewrite bind_ret.
        destruct (traj_labels a) as [tl |] eqn:Htl.
        -- rewrite orb_false_r.
           destruct (Nat.eqb_spec (length (list_trajs a)) (length tl)) as [Hq | Hq].
           ++ rewrite bind_ret.
              destruct (point_labels a) as [pl |] eqn:Hpl.
              ** destruct (Nat.eqb_spec (length (list_points a)) (length pl)) as [He | He].
                 --- right. split; [| reflexivity].
                     intros [[H _] | [H | [(l & [= <-] & H & _) | (l & [= <-] & H)]]];
                       try lia.
                 --- left. split.
                     +++ right; right; right. exists pl. split; [reflexivity | congruence].
                     +++ eexists. split; [| reflexivity]. simpl. tauto.
              ** right. split; [| reflexivity].
                 intros [[H _] | [H | [(l & [= <-] & H & _) | (l & H & _)]]];
                   try discriminate; try lia.
           ++ left. split.
              ** right; right; left. exists tl. repeat split; congruence.
              ** eexists. split; [| reflexivity]. simpl. tauto.
        -- rewrite bind_ret.
           destruct (point_labels a) as [pl |] eqn:Hpl.
           ++ destruct (Nat.eqb_spec (length (list_points a)) (length pl)) as [He | He].
              ** right. split; [| reflexivity].
                 intros [[H _] | [H | [(l & H & _) | (l & [= <-] & H)]]];
                   try discriminate; try lia.
              ** left. split.
                 --- right; right; right. exists pl. split; [reflexivity | congruence].
                 --- eexists. split; [| reflexivity]. simpl. tauto.
           ++ right. split; [| reflexivity].
              intros [[H _] | [H | [(l & H & _) | (l & H & _)]]];
                try discriminate; try lia.
      * left. split.
        -- right; left. lia.
        -- eexists. split; [| reflexivity]. simpl. tauto.
    + left. split.
      * left. split; [lia | reflexivity].
      * eexists. split; [| reflexivity]. simpl. tauto.
Qed.

Lemma after_preconditions :
  preconditions a = ([], Ok tt) ->
  plot_trajs_and_points G a = Py.bind (draw_loops G a) (fun _ => finish a).
Proof.
  intros H. unfold plot_trajs_and_points. rewrite H.
  exact (bind_ret tt (fun _ => Py.bind (draw_loops G a) (fun _ => finish a))).
Qed.

End RendererFacts.

Lemma finish_respects (a : plot_args) (evs : draw_op -> Prop) :
  Forall evs (fst (finish a)) -> respects evs drawing_error (finish a).
Proof.
  intros H. split; [exact H |]. rewrite finish_eval. discriminate.
Qed.

Lemma plot_traj_line_cases (a : plot_args) (i : nat) (t : array2) :
  (exists xs ys c l al,
      index (traj_colors a) i = Ok c
      /\ plot_traj_line a i t = ([AxPlotLine xs ys c l al], Ok tt))
  \/ plot_traj_line a i t = ([], Raise IndexError).
Proof.
  unfold plot_traj_line.
  destruct (traj_labels a) as [labels |];
    (destruct (column t 0) as [xs | e] eqn:H0;
       [rewrite bind_lift_ok | apply column_raises in H0; subst; right; reflexivity]);
    (destruct (column t 1) as [ys | e] eqn:H1;
       [rewrite bind_lift_ok | apply column_raises in H1; subst; right; reflexivity]);
    (destruct (index (traj_colors a) i) as [c | e] eqn:Hc;
       [rewrite bind_lift_ok | apply index_raises in Hc; subst; right; reflexivity]).
  - destruct (index labels i) as [l | e] eqn:Hl;
      [rewrite bind_lift_ok | apply index_raises in Hl; subst; right; reflexivity].
    destruct (alpha_at (traj_alphas a) i) as [al | e] eqn:Ha;
      [rewrite bind_lift_ok | apply alpha_at_raises in Ha; subst; right; reflexivity].
    left. exists xs, ys, c, (Some l), al. split; reflexivity.
  - destruct (alpha_at (traj_alphas a) i) as [al | e] eqn:Ha;
      [rewrite bind_lift_ok | apply alpha_at_raises in Ha; subst; right; reflexivity].
    left. exists xs, ys, c, None, al. split; reflexivity.
Qed.

Lemma plot_traj_quiver_skipped (G : namespace) (a : plot_args) (i : nat) (t : array2) :
  no_indicator a t -> plot_traj_quiver G a i t = Py.ret tt.
Proof.
  intros H. unfold plot_traj_quiver.
  assert (Hc : (2 <? ncols t) && (0 <? quiver_freq a)%Z = false).
  { destruct H as [H | H].
    - apply andb_false_intro1. apply Nat.ltb_ge. exact H.
    - apply andb_false_intro2. apply Z.ltb_ge. exact H. }
  rewrite Hc. reflexivity.
Qed.

(** The trajectory loop, entered at index [k] with more trajectories left
    than colours: it stops with an index error, having drawn at most the
    trajectories that have a colour. *)
Lemma traj_loop_overflow (G : namespace) (a : plot_args) (l : list array2) :
  forall k,
    (forall t, In t l -> no_indicator a t) ->
    k <= length (traj_colors a) ->
    length (traj_colors a) < k + length l ->
    exists tr,
      Py.for_each (combine (seq k (length l)) l) (plot_traj G a) = (tr, Raise IndexError)
      /\ k + length tr <= length (traj_colors a)
      /\ Forall (line_colored_from (traj_colors a)) tr.
Proof.
  induction l as [| t l IH]; intros k Hno Hk Hlen; simpl in *.
  - lia.
  - rewrite plot_traj_quiver_skipped by (apply Hno; left; reflexivity).
    destruct (plot_traj_line_cases a k t) as [(xs & ys & c & lb & al & Hc & Hline) | Hline];
      rewrite Hline.
    + apply index_ok_lt in Hc. destruct Hc as [Hlt Hin].
      destruct (IH (S k)) as (tr & Hloop & Hn & Hall); try lia.
      { intros t' Ht'. apply Hno. right. exact Ht'. }
      exists (AxPlotLine xs ys c lb al :: tr). simpl. rewrite Hloop. simpl.
      split; [reflexivity |]. split; [lia |].
      constructor; [exact Hin | exact Hall].
    + exists []. simpl. split; [reflexivity |]. split; [lia | constructor].
Qed.

(** C3: [plot_trajs_and_points] raises an assertion error exactly when one
    of the four stated length preconditions is violated, and it then raises
    it with one of the four messages and before anything is drawn (the
    trace of axes calls is empty). *)
Theorem assertion_error_iff_precondition_violated (G : namespace) (a : plot_args) :
  ((exists msg, snd (plot_trajs_and_points G a) = Raise (AssertionError msg))
   <-> precondition_violated a)
  /\ (precondition_violated a ->
      exists msg, In msg assertion_messages
                  /\ plot_trajs_and_points G a = ([], Raise (AssertionError msg))).
Proof.
  destruct (preconditions_eval a) as [(Hv & msg & Hin & Hpre) | (Hnv & Hpre)].
  - assert (Hcall : plot_trajs_and_points G a = ([], Raise (AssertionError msg))).
    { unfold plot_trajs_and_points. rewrite Hpre. reflexivity. }
    split.
    + split; [intros _; exact Hv | intros _; exists msg; rewrite Hcall; reflexivity].
    + intros _. exists msg. split; assumption.
  - split; [| intros Hv; contradiction].
    split; [| intros Hv; contradiction].
    intros [msg Hmsg]. exfalso.
    rewrite (after_preconditions G a Hpre) in Hmsg.
    assert (Hr : respects (fun _ => True) drawing_error
                   (Py.bind (draw_loops G a) (fun _ => finish a))).
    { apply respects_bind.
      - eapply respects_weaken; [| | apply draw_loops_respects]; auto.
      - intros _. apply finish_respects. apply Forall_forall. trivial. }
    destruct Hr as [_ Hr]. destruct (Hr _ Hmsg) as [H | [H | [n H]]]; discriminate.
Qed.

Lemma preconditions_trace (a : plot_args) : fst (preconditions a) = [].
Proof.
  destruct (preconditions_eval a) as [(_ & msg & _ & H) | (_ & H)];
    rewrite H; reflexivity.
Qed.

Lemma preconditions_ok_iff (a : plot_args) :
  preconditions a = ([], Ok tt) <-> ~ precondition_violated a.
Proof.
  destruct (preconditions_eval a) as [(Hv & msg & _ & H) | (Hnv & H)]; rewrite H.
  - split; [discriminate | contradiction].
  - split; [intros _; exact Hnv | reflexivity].
Qed.

Lemma drawing_not_legend (tr : list draw_op) :
  Forall is_drawing tr -> existsb is_legend tr = false.
Proof.
  induction 1 as [| op tr [Hl _] _ IH]; simpl.
  - reflexivity.
  - rewrite Hl, IH. reflexivity.
Qed.

(** In the module as it is, the helper that derives the bearings is not
    bound: the indicator branch stops at the lookup. *)
Lemma plot_traj_quiver_unbound (a : plot_args) (i : nat) (t : array2) :
  plot_traj_quiver viz_utils_globals a i t = Py.ret tt
  \/ plot_traj_quiver viz_utils_globals a i t
     = ([], Raise (NameError "gen_bearings_from_waypoints")).
Proof.
  unfold plot_traj_quiver.
  destruct ((2 <? ncols t) && (0 <? quiver_freq a)%Z); [right | left]; reflexivity.
Qed.

(** With the helper bound, the branch draws the indicators: every
    [quiver_freq]-th pose, in half the trajectory's colour. *)
Lemma plot_traj_quiver_bound (G : namespace) (a : plot_args) (i : nat) (t : array2)
  (f : array2 -> array2) (c : color) :
  lookup_global G "gen_bearings_from_waypoints" = Ok (PyArrayFn f) ->
  2 < ncols t ->
  (0 < quiver_freq a)%Z ->
  1 < ncols (f t) ->
  index (traj_colors a) i = Ok c ->
  exists xs ys us vs,
    column_step t (Z.to_nat (quiver_freq a)) 0 = Ok xs
    /\ column_step t (Z.to_nat (quiver_freq a)) 1 = Ok ys
    /\ column_step (f t) (Z.to_nat (quiver_freq a)) 0 = Ok us
    /\ column_step (f t) (Z.to_nat (quiver_freq a)) 1 = Ok vs
    /\ plot_traj_quiver G a i t
       = ([AxQuiver xs ys us vs (color_scale c (1 # 2)) 1%Q], Ok tt).
Proof.
  intros HG Hn Hq Hb Hc. unfold plot_traj_quiver.
  apply Nat.ltb_lt in Hn as Hn'. apply Z.ltb_lt in Hq as Hq'.
  rewrite Hn', Hq', HG. simpl andb. cbv iota. rewrite bind_lift_ok.
  simpl call_array_fn. rewrite bind_lift_ok.
  unfold column_step.
  assert (H0 : (0 <? ncols t) = true) by (apply Nat.ltb_lt; lia).
  assert (H1 : (1 <? ncols t) = true) by (apply Nat.ltb_lt; lia).
  assert (H2 : (0 <? ncols (f t)) = true) by (apply Nat.ltb_lt; lia).
  assert (H3 : (1 <? ncols (f t)) = true) by (apply Nat.ltb_lt; lia).
  rewrite H0, H1, H2, H3, Hc. rewrite !bind_lift_ok.
  do 4 eexists. repeat split; reflexivity.
Qed.

(** C7 (defect of the code): the indicator branch of lines 81-90 calls
    [gen_bearings_from_waypoints], a name the module neither defines nor
    imports.  For a trajectory with heading (4 components) and
    [quiver_freq = 1] the call therefore plots the line and then stops
    with a name error, and no call at all ever reaches [ax.quiver]. *)
Theorem heading_indicators_never_drawn :
  plot_trajs_and_points viz_utils_globals (unlabelled [with_heading] [])
  = ([AxPlotLine [0; 1; 2]%Q [0; 1; 0]%Q CYAN None 1%Q],
     Raise (NameError "gen_bearings_from_waypoints"))
  /\ forall a : plot_args,
       existsb is_quiver (fst (plot_trajs_and_points viz_utils_globals a)) = false.
Proof.
  split; [reflexivity |].
  intros a.
  assert (Hno : forall tr : list draw_op,
             Forall (fun op => is_quiver op = false) tr -> existsb is_quiver tr = false).
  { induction 1 as [| op tr Hop _ IH]; simpl; [reflexivity | rewrite Hop, IH; reflexivity]. }
  apply Hno.
  assert (Hplot : forall op, is_plot op -> is_quiver op = false)
    by (intros [] H; try contradiction; reflexivity).
  assert (Hr : respects (fun op => is_quiver op = false) (fun _ => True)
                 (plot_trajs_and_points viz_utils_globals a)).
  { unfold plot_trajs_and_points. apply respects_bind.
    - split; [rewrite preconditions_trace; constructor | trivial].
    - intros _. apply respects_bind.
      + unfold draw_loops. apply respects_bind.
        * apply respects_for_each. intros [i t] _. unfold plot_traj.
          apply respects_bind.
          -- eapply respects_weaken; [exact Hplot | | apply plot_traj_line_respects].
             trivial.
          -- intros _.
             destruct (plot_traj_quiver_unbound a i t) as [H | H]; rewrite H;
               split; simpl; try constructor; trivial.
        * intros _. apply respects_for_each. intros ip _.
          eapply respects_weaken; [exact Hplot | | apply plot_point_respects].
          trivial.
      + intros _. rewrite finish_eval. split; [| trivial]. simpl.
        unfold legend_ops.
        destruct (is_not_none (traj_labels a) || is_not_none (point_labels a));
          repeat constructor. }
  exact (proj1 Hr).
Qed.

(** C8 (as amended): a call that passes the four assertions and whose two
    drawing loops raise nothing returns normally; its last call on the axes
    is [set_aspect("equal", "box")], and it calls [legend] (the second time
    anchored below the plot, in two columns) exactly when [traj_labels] or
    [point_labels] is not [None].  So it is for the trajectory
    [[[0,0],[1,1],[2,0]]] and the point [[2,2]] with the default colours
    and no labels: no exception, no legend, equal aspect. *)
Theorem completes_with_equal_aspect :
  (forall (G : namespace) (a : plot_args) (tr : list draw_op),
      preconditions a = ([], Ok tt) ->
      draw_loops G a = (tr, Ok tt) ->
      plot_trajs_and_points G a
      = (tr ++ legend_ops a ++ [AxSetAspect "equal" "box"], Ok tt)
      /\ Forall is_drawing tr
      /\ existsb is_legend (fst (plot_trajs_and_points G a))
         = is_not_none (traj_labels a) || is_not_none (point_labels a))
  /\ plot_trajs_and_points viz_utils_globals (unlabelled [zigzag] [corner])
     = ([AxPlotLine [0; 1; 2]%Q [0; 1; 0]%Q CYAN None 1%Q;
         AxPlotMarker 2%Q 2%Q RED None 1%Q 7%Q;
         AxSetAspect "equal" "box"],
        Ok tt).
Proof.
  split; [| reflexivity].
  intros G a tr Hpre Hloops.
  assert (Hcall : plot_trajs_and_points G a
                  = (tr ++ legend_ops a ++ [AxSetAspect "equal" "box"], Ok tt)).
  { rewrite (after_preconditions G a Hpre).
    rewrite (bind_ok _ Hloops), finish_eval. reflexivity. }
  assert (Hdraw : Forall is_drawing tr).
  { pose proof (draw_loops_respects G a) as [H _]. rewrite Hloops in H. exact H. }
  split; [exact Hcall |]. split; [exact Hdraw |].
  rewrite Hcall. simpl fst. rewrite !existsb_app, (drawing_not_legend Hdraw).
  unfold legend_ops.
  destruct (is_not_none (traj_labels a) || is_not_none (point_labels a)); reflexivity.
Qed.

Lemma completes_with_equal_aspect_labelled :
  plot_trajs_and_points viz_utils_globals (default_args [zigzag; zigzag] [corner; corner])
  = ([AxPlotLine [0; 1; 2]%Q [0; 1; 0]%Q CYAN (Some "prediction"%string) 1%Q;
      AxPlotLine [0; 1; 2]%Q [0; 1; 0]%Q MAGENTA (Some "ground truth"%string) 1%Q;
      AxPlotMarker 2%Q 2%Q RED (Some "robot"%string) 1%Q 7%Q;
      AxPlotMarker 2%Q 2%Q GREEN (Some "goal"%string) 1%Q 7%Q]
     ++ legend_ops (default_args [zigzag; zigzag] [corner; corner])
     ++ [AxSetAspect "equal" "box"],
     Ok tt)
  /\ existsb is_legend
       (fst (plot_trajs_and_points viz_utils_globals
               (default_args [zigzag; zigzag] [corner; corner])))
     = true.
Proof.
  pose proof (proj1 completes_with_equal_aspect viz_utils_globals
                (default_args [zigzag; zigzag] [corner; corner]) _
                eq_refl eq_refl) as (H1 & _ & H2).
  split; [exact H1 | exact H2].
Defined.

(** C8, as the specification states it, fails: a caller that passes two
    trajectories and one alpha passes the four assertions, and the call
    stops with an index error in the trajectory loop; [set_aspect] is never
    reached. *)
Lemma passing_preconditions_does_not_complete :
  preconditions one_alpha_short = ([], Ok tt)
  /\ plot_trajs_and_points viz_utils_globals one_alpha_short
     = ([AxPlotLine [0; 1; 2]%Q [0; 1; 0]%Q CYAN None (1 # 2)%Q], Raise IndexError).
Proof. split; reflexivity. Qed.

(** C10 (as amended): with [default_coloring] true and more trajectories
    than [traj_colors], the two trajectory assertions pass whatever the
    lengths; when the two point assertions pass as well (and no heading
    indicator is requested), all four pass, the trajectory loop still
    indexes [traj_colors] at each trajectory's position, and the call
    stops in that loop with an index error, after drawing at most
    [len(traj_colors)] lines, each in one of the supplied colours: no
    default colour is ever substituted. *)
Theorem default_coloring_overflow (G : namespace) (a : plot_args) :
  default_coloring a = true ->
  length (traj_colors a) < length (list_trajs a) ->
  length (list_points a) <= length (point_colors a) ->
  (forall labels, point_labels a = Some labels -> length labels = length (list_points a)) ->
  (forall t, In t (list_trajs a) -> no_indicator a t) ->
  preconditions a = ([], Ok tt)
  /\ exists tr,
       plot_trajs_and_points G a = (tr, Raise IndexError)
       /\ length tr <= length (traj_colors a)
       /\ Forall (line_colored_from (traj_colors a)) tr.
Proof.
  intros Hd Hlen Hp Hpl Hno.
  assert (Hpre : preconditions a = ([], Ok tt)).
  { apply preconditions_ok_iff.
    intros [[_ H] | [H | [(l & _ & _ & H) | (l & Hl & H)]]];
      try congruence; try lia.
    apply H, Hpl, Hl. }
  split; [exact Hpre |].
  destruct (@traj_loop_overflow G a (list_trajs a) 0 Hno) as (tr & Hloop & Hn & Hall);
    try lia.
  exists tr. split; [| split; [lia | exact Hall]].
  rewrite (after_preconditions G a Hpre). unfold draw_loops, enumerate.
  rewrite Hloop. reflexivity.
Qed.

Lemma default_coloring_overflow_witness :
  exists tr,
    plot_trajs_and_points viz_utils_globals (unlabelled [zigzag; zigzag; zigzag] [corner])
    = (tr, Raise IndexError)
    /\ length tr <= 2.
Proof.
  destruct (@default_coloring_overflow viz_utils_globals
              (unlabelled [zigzag; zigzag; zigzag] [corner]))
    as (_ & tr & Hcall & Hn & _).
  - reflexivity.
  - simpl. lia.
  - simpl. lia.
  - simpl. discriminate.
  - intros t [<- | [<- | [<- | []]]]; left; simpl; lia.
  - exists tr. split; [exact Hcall | exact Hn].
Defined.

(** C10, as stated, fails: with default colouring and more trajectories
    than colours, the assertion on the points can still fail, and then the
    call stops before the drawing loop, with an assertion error. *)
Lemma default_coloring_point_assertion_fails :
  default_coloring crowded = true
  /\ length (traj_colors crowded) < length (list_trajs crowded)
  /\ plot_trajs_and_points viz_utils_globals crowded
     = ([], Raise (AssertionError "Not enough colors for points")).
Proof. repeat split. simpl. lia. Qed.

(** ** The model adapter *)

(** With [to_numpy] bound, the adapter does what its body says: it hands
    the channel-last 8-bit array to the model, once, and returns the
    model's answer. *)
Lemma generate_masks_with_helper (G : namespace) (f : tensor -> ndarray Q)
  (viz_obs : tensor) (model : seg_model) (moved : ndarray Q) :
  lookup_global G "to_numpy" = Ok (PyTensorFn f) ->
  np_moveaxis_0_last (f viz_obs) = Ok moved ->
  generate_masks G viz_obs model
  = ([CallGenerate (scale_to_uint8 moved)], Ok (generate model (scale_to_uint8 moved))).
Proof.
  intros HG Hm. unfold generate_masks.
  rewrite HG, bind_lift_ok. simpl call_tensor_fn.
  rewrite bind_lift_ok, Hm, bind_lift_ok. reflexivity.
Qed.

Example generate_masks_two_pixels :
  generate_masks (("to_numpy"%string, PyTensorFn tensor_array) :: viz_utils_globals)
    two_pixels blind_model
  = ([CallGenerate {| shape := [1; 2; 3]; data := [0; 255; 85;  127; 63; 255]%Z |}],
     Ok []).
Proof. reflexivity. Qed.

(** C6: whatever the tensor and the model, [generate_masks] stops at the
    lookup of [to_numpy], which the module neither defines nor imports:
    it raises a name error, and [model.generate] has not been called. *)
Theorem generate_masks_name_error (viz_obs : tensor) (model : seg_model) :
  generate_masks viz_utils_globals viz_obs model = ([], Raise (NameError "to_numpy")).
Proof. reflexivity. Qed.

(** C5 (defect of the code): for the normalised tensor [two_pixels] the
    adapter returns nothing of the model: the call raises the name error of
    [to_numpy] and the model is never asked. *)
Theorem generate_masks_returns_no_masks :
  generate_masks viz_utils_globals two_pixels blind_model
  = ([], Raise (NameError "to_numpy"))
  /\ forall img : ndarray Z,
       snd (generate_masks viz_utils_globals two_pixels blind_model)
       <> Ok (generate blind_model img).
Proof. split; [reflexivity | intros img; discriminate]. Qed.

(** ** Sorting by area *)

Lemma insert_by_area_perm (x : mask) (l : list mask) :
  Permutation (insert_by_area x l) (x :: l).
Proof.
  induction l as [| y ys IH]; simpl.
  - reflexivity.
  - destruct (area x <? area y)%Z.
    + rewrite IH. apply perm_swap.
    + reflexivity.
Qed.

Lemma sorted_by_area_perm (masks : list mask) :
  Permutation (sorted_by_area masks) masks.
Proof.
  induction masks as [| x l IH]; simpl.
  - reflexivity.
  - rewrite insert_by_area_perm. constructor. exact IH.
Qed.

Lemma insert_by_area_sorted (x : mask) (l : list mask) :
  StronglySorted area_ge l -> StronglySorted area_ge (insert_by_area x l).
Proof.
  induction 1 as [| y ys Hs IH Hall]; simpl.
  - repeat constructor.
  - destruct (Z.ltb_spec (area x) (area y)) as [Hlt | Hge].
    + constructor; [exact IH |].
      rewrite insert_by_area_perm. constructor; [unfold area_ge; lia | exact Hall].
    + constructor; [constructor; assumption |].
      constructor; [unfold area_ge; lia |].
      eapply Forall_impl; [| exact Hall]. unfold area_ge. intros z Hz. lia.
Qed.

Lemma sorted_by_area_sorted (masks : list mask) :
  StronglySorted area_ge (sorted_by_area masks).
Proof.
  induction masks as [| x l IH]; simpl.
  - constructor.
  - apply insert_by_area_sorted, IH.
Qed.

Lemma strongly_sorted_nth {A : Type} (R : A -> A -> Prop) (l : list A) :
  StronglySorted R l ->
  forall i j x y, i < j -> nth_error l i = Some x -> nth_error l j = Some y -> R x y.
Proof.
  induction 1 as [| z l Hs IH Hall]; intros i j x y Hij Hi Hj.
  - destruct i; discriminate.
  - destruct j as [| j]; [lia |]. simpl in Hj.
    destruct i as [| i]; simpl in Hi.
    + injection Hi as <-. rewrite Forall_forall in Hall.
      apply Hall. eapply nth_error_In. exact Hj.
    + apply (IH i j); [lia | assumption | assumption].
Qed.

(** ** Painting *)

Lemma overwrite_length (m : list bool) (c : color) :
  forall px, length m = length px -> length (overwrite m c px) = length px.
Proof.
  induction m as [| b m IH]; intros [| p px] H; simpl in *; try lia.
  rewrite IH; lia.
Qed.

Lemma overwrite_nth (m : list bool) (c : color) :
  forall px p, length m = length px ->
    nth p (overwrite m c px) WHITE
    = if nth p m false then c else nth p px WHITE.
Proof.
  induction m as [| b m IH]; intros [| q px] p H; simpl in *; try lia.
  - destruct p; reflexivity.
  - destruct p as [| p]; [reflexivity |]. apply IH. lia.
Qed.

Lemma final_color_none (bits : list bool) :
  forall cs init, (forall b, In b bits -> b = false) -> final_color bits cs init = init.
Proof.
  induction bits as [| b bits IH]; intros cs init H; simpl.
  - reflexivity.
  - destruct cs as [| c cs]; [reflexivity |].
    rewrite (H b) by (left; reflexivity).
    apply IH. intros b' Hb'. apply H. right. exact Hb'.
Qed.

(** The last grid that covers the pixel decides its colour. *)
Lemma final_color_last (bits : list bool) :
  forall cs init,
    length bits = length cs ->
    In true bits ->
    exists i c,
      nth_error bits i = Some true
      /\ nth_error cs i = Some c
      /\ final_color bits cs init = c
      /\ forall j, i < j -> nth_error bits j <> Some true.
Proof.
  induction bits as [| b bits IH]; intros cs init Hlen Hin; [contradiction |].
  destruct cs as [| c cs]; [discriminate |]. simpl in Hlen. simpl final_color.
  destruct (in_dec bool_dec true bits) as [Hlater | Hnone].
  - destruct (IH cs (if b then c else init)) as (i & c' & Hb & Hc & Hf & Hlast);
      [lia | exact Hlater |].
    exists (S i), c'. repeat split; try assumption.
    intros [| j] Hj; [lia |]. simpl. apply Hlast. lia.
  - destruct Hin as [-> | Hin]; [| contradiction].
    exists 0, c. repeat split.
    + apply final_color_none. intros [|] Hb; [contradiction | reflexivity].
    + intros [| j] Hj; [lia |]. simpl. intros Hb.
      apply Hnone. eapply nth_error_In. exact Hb.
Qed.

Lemma final_color_in (bits : list bool) :
  forall cs init, final_color bits cs init = init \/ In (final_color bits cs init) cs.
Proof.
  induction bits as [| b bits IH]; intros cs init; simpl.
  - left. reflexivity.
  - destruct cs as [| c cs]; [left; reflexivity |].
    destruct (IH cs (if b then c else init)) as [H | H].
    + rewrite H. destruct b; [right; left; reflexivity | left; reflexivity].
    + right. right. exact H.
Qed.

Section ConverterFacts.

Variable rng_state : Type.
Variable random3 : rng_state -> color * rng_state.

Lemma draws_length (n : nat) : forall s, length (draws random3 n s) = n.
Proof.
  induction n as [| n IH]; intros s; simpl.
  - reflexivity.
  - destruct (random3 s) as [c s']. simpl. rewrite IH. reflexivity.
Qed.

(** The painting loop over grids of the canvas's extent: it draws one
    colour per mask and leaves each pixel in the colour of the last
    mask that covers it. *)
Lemma paint_all_pixels (anns : list mask) :
  forall (img : image) (s : rng_state),
    (forall m, In m anns -> grid_of (im_rows img) (im_cols img) m) ->
    length (pixels img) = im_rows img * im_cols img ->
    exists img',
      paint_all random3 anns img s = (Ok img', after_draws random3 (length anns) s)
      /\ im_rows img' = im_rows img
      /\ im_cols img' = im_cols img
      /\ length (pixels img') = length (pixels img)
      /\ forall p,
           nth p (pixels img') WHITE
           = final_color (map (fun m => nth p (data (segmentation m)) false) anns)
                         (draws random3 (length anns) s)
                         (nth p (pixels img) WHITE).
Proof.
  induction anns as [| ann anns IH]; intros img s Hgrid Hlen.
  - exists img. simpl. repeat split; reflexivity.
  - simpl. destruct (random3 s) as [c s'] eqn:Hrand.
    destruct (Hgrid ann (or_introl eq_refl)) as [Hshape Hwf].
    unfold set_masked. rewrite Hshape.
    destruct (list_eq_dec Nat.eq_dec [im_rows img; im_cols img]
                [im_rows img; im_cols img]) as [_ | Hne]; [| congruence].
    assert (Hm : length (data (segmentation ann)) = length (pixels img)).
    { unfold wf_array in Hwf. rewrite Hshape in Hwf. simpl in Hwf. lia. }
    destruct (IH {| im_rows := im_rows img; im_cols := im_cols img;
                    pixels := overwrite (data (segmentation ann)) c (pixels img) |} s')
      as (img' & Hrun & Hr & Hc & Hl & Hpix).
    + intros m Hin. apply Hgrid. right. exact Hin.
    + simpl. rewrite overwrite_length; assumption.
    + exists img'. simpl in *. rewrite Hrun.
      replace (snd (random3 s)) with s' by (rewrite Hrand; reflexivity).
      repeat split; try assumption.
      * rewrite Hl. apply overwrite_length. exact Hm.
      * intros p. rewrite Hpix. rewrite overwrite_nth by exact Hm. reflexivity.
Qed.

End ConverterFacts.

Section CompositeFacts.

Variable rng_state : Type.
Variable random3 : rng_state -> color * rng_state.

(** Lines 132-136 on a non-empty list of masks of one extent. *)
Lemma composite_pixels (masks : list mask) (rows cols : nat) (s : rng_state) :
  masks <> [] ->
  (forall m, In m masks -> grid_of rows cols m) ->
  exists img,
    composite random3 masks s = (Ok img, after_draws random3 (length masks) s)
    /\ im_rows img = rows
    /\ im_cols img = cols
    /\ length (pixels img) = rows * cols
    /\ forall p,
         nth p (pixels img) WHITE
         = final_color
             (map (fun m => nth p (data (segmentation m)) false) (sorted_by_area masks))
             (draws random3 (length masks) s)
             WHITE.
Proof.
  intros Hne Hgrid.
  destruct masks as [| first rest] eqn:Hmasks; [congruence |]. rewrite <- Hmasks in *.
  assert (Hfirst : grid_of rows cols first)
    by (apply Hgrid; rewrite Hmasks; left; reflexivity).
  destruct Hfirst as [Hshape _].
  pose proof (sorted_by_area_perm masks) as Hperm.
  destruct (@paint_all_pixels rng_state random3 (sorted_by_area masks)
              (np_ones rows cols) s) as (img & Hrun & Hr & Hc & Hl & Hpix).
  { intros m Hin. simpl. apply Hgrid. eapply Permutation_in; eassumption. }
  { simpl. apply repeat_length. }
  rewrite (Permutation_length Hperm) in Hrun, Hpix.
  exists img. split; [| split; [exact Hr | split; [exact Hc | split]]].
  - assert (Hidx : index masks 0 = Ok first) by (rewrite Hmasks; reflexivity).
    unfold composite. rewrite Hidx. unfold grid_rows, grid_cols. rewrite Hshape.
    exact Hrun.
  - rewrite Hl. simpl. apply repeat_length.
  - intros p. rewrite Hpix. simpl pixels. rewrite nth_repeat. reflexivity.
Qed.

End CompositeFacts.

Example composite_small_inside_large :
  composite counter_random3 [small_mask; large_mask] 0
  = (Ok {| im_rows := 2; im_cols := 2;
           pixels := [ (1 # 7, 1 # 3, 1 # 2)%Q; (0 # 7, 1 # 3, 1 # 2)%Q;
                       (0 # 7, 1 # 3, 1 # 2)%Q; WHITE ] |},
     2).
Proof. reflexivity. Qed.

(** C1: for a non-empty list of masks whose grids have one extent,
    lines 132-136 paint the masks in descending order of area, each in the
    one colour drawn for it (the generator is called once per mask), and
    on the composited canvas: a pixel no mask covers is white; a pixel
    some mask covers has the colour of a mask that covers it and has the
    smallest area among the masks covering it; the canvas holds at most
    [len(masks)] distinct colours other than the background. *)
Theorem smallest_covering_mask_wins
  (rng_state : Type) (random3 : rng_state -> color * rng_state)
  (masks : list mask) (rows cols : nat) (s : rng_state) :
  masks <> [] ->
  (forall m, In m masks -> grid_of rows cols m) ->
  Permutation (sorted_by_area masks) masks
  /\ StronglySorted area_ge (sorted_by_area masks)
  /\ exists img,
       composite random3 masks s = (Ok img, after_draws random3 (length masks) s)
       /\ im_rows img = rows
       /\ im_cols img = cols
       /\ length (pixels img) = rows * cols
       /\ (forall y x, y < rows -> x < cols ->
             (forall m, In m masks -> covers m y x = false) ->
             pixel_at img y x = WHITE)
       /\ (forall y x, y < rows -> x < cols ->
             (exists m, In m masks /\ covers m y x = true) ->
             exists i m c,
               nth_error (sorted_by_area masks) i = Some m
               /\ nth_error (draws random3 (length masks) s) i = Some c
               /\ covers m y x = true
               /\ pixel_at img y x = c
               /\ forall m', In m' masks -> covers m' y x = true ->
                             (area m <= area m')%Z)
       /\ length (foreground_colors img) <= length masks.
Proof.
  intros Hne Hgrid.
  pose proof (sorted_by_area_perm masks) as Hperm.
  pose proof (sorted_by_area_sorted masks) as Hsorted.
  split; [exact Hperm |]. split; [exact Hsorted |].
  destruct (@composite_pixels rng_state random3 masks rows cols s Hne Hgrid)
    as (img & Hrun & Hr & Hc & Hl & Hpix).
  assert (Hcov : forall m y x, In m masks ->
            covers m y x = nth (y * cols + x) (data (segmentation m)) false).
  { intros m y x Hin. destruct (Hgrid m Hin) as [Hshape _].
    unfold covers. rewrite Hshape. reflexivity. }
  assert (Hin_sorted : forall m, In m (sorted_by_area masks) <-> In m masks).
  { intros m. split; intros H.
    - eapply Permutation_in; eassumption.
    - eapply Permutation_in; [symmetry |]; eassumption. }
  exists img. repeat (split; [assumption |]). split; [| split].
  - intros y x Hy Hx Hnone. unfold pixel_at. rewrite Hc, Hpix.
    apply final_color_none. intros b Hb.
    apply in_map_iff in Hb. destruct Hb as (m & <- & Hm).
    apply Hin_sorted in Hm. rewrite <- (Hcov m y x Hm). apply Hnone, Hm.
  - intros y x Hy Hx (m0 & Hm0 & Hcov0). unfold pixel_at. rewrite Hc, Hpix.
    set (bits := map (fun m => nth (y * cols + x) (data (segmentation m)) false)
                     (sorted_by_area masks)).
    destruct (@final_color_last bits (draws random3 (length masks) s) WHITE)
      as (i & c & Hbit & Hcol & Hfinal & Hlast).
    { unfold bits. rewrite length_map, draws_length. apply Permutation_length, Hperm. }
    { unfold bits. apply in_map_iff. exists m0. split.
      - rewrite <- (Hcov m0 y x Hm0). exact Hcov0.
      - apply Hin_sorted, Hm0. }
    unfold bits in Hbit. rewrite nth_error_map in Hbit.
    destruct (nth_error (sorted_by_area masks) i) as [m |] eqn:Hm; [| discriminate].
    simpl in Hbit. injection Hbit as Hbit.
    assert (Hm_in : In m masks) by (apply Hin_sorted; eapply nth_error_In; exact Hm).
    exists i, m, c. repeat split; try assumption.
    + rewrite (Hcov m y x Hm_in). exact Hbit.
    + intros m' Hm' Hcov'.
      apply Hin_sorted in Hm' as Hs'. apply In_nth_error in Hs'. destruct Hs' as [j Hj].
      destruct (Nat.lt_trichotomy j i) as [Hlt | [Heq | Hgt]].
      * exact (strongly_sorted_nth Hsorted Hlt Hj Hm).
      * subst j. rewrite Hm in Hj. injection Hj as <-. lia.
      * exfalso. apply (Hlast j Hgt). unfold bits. rewrite nth_error_map, Hj. simpl.
        rewrite <- (Hcov m' y x Hm'). rewrite Hcov'. reflexivity.
  - unfold foreground_colors.
    rewrite <- (draws_length random3 (length masks) s).
    apply NoDup_incl_length; [apply NoDup_nodup |].
    intros c Hc_in. apply nodup_In in Hc_in. apply filter_In in Hc_in.
    destruct Hc_in as [Hpx Hfg].
    destruct (In_nth _ _ WHITE Hpx) as (p & _ & Hp).
    rewrite Hpix in Hp.
    match type of Hp with
    | final_color ?b ?cs ?i = _ => destruct (final_color_in b cs i) as [Hw | Hin]
    end.
    + assert (Hwhite : c = WHITE) by congruence.
      rewrite Hwhite in Hfg. unfold is_background in Hfg.
      destruct (color_eq_dec WHITE WHITE); [simpl in Hfg; discriminate | congruence].
    + rewrite Hp in Hin. exact Hin.
Qed.

Lemma smallest_covering_mask_wins_witness :
  exists img,
    composite counter_random3 [small_mask; large_mask] 0
    = (Ok img, after_draws counter_random3 2 0)
    /\ (exists i c,
          nth_error (sorted_by_area [small_mask; large_mask]) i = Some small_mask
          /\ nth_error (draws counter_random3 2 0) i = Some c
          /\ pixel_at img 0 0 = c)
    /\ length (foreground_colors img) <= 2.
Proof.
  destruct (@smallest_covering_mask_wins nat counter_random3
              [small_mask; large_mask] 2 2 0)
    as (_ & _ & img & Hrun & _ & _ & _ & _ & Hcovered & Hcount).
  - discriminate.
  - intros m [<- | [<- | []]]; split; reflexivity.
  - exists img. split; [exact Hrun |]. split; [| exact Hcount].
    destruct (Hcovered 0 0) as (i & m & c & Hi & Hc & Hcov & Hpix & Hmin); try lia.
    { exists small_mask. split; [left; reflexivity | reflexivity]. }
    exists i, c. repeat split; try assumption.
    assert (Ha : (area m <= 1)%Z).
    { apply (Hmin small_mask); [left; reflexivity | reflexivity]. }
    destruct i as [| [| [| i]]]; simpl in Hi; try discriminate;
      injection Hi as <-; [simpl in Ha; lia | reflexivity].
Defined.

(** C9: on the empty list, [mask_to_img] sorts nothing and then fails at
    [masks[0]]: the index error is what the call ends with; no tensor is
    returned and no colour has been drawn. *)
Theorem mask_to_img_empty
  (rng_state : Type) (random3 : rng_state -> color * rng_state)
  (cv2_resize : ndarray Q -> nat * nat -> result (ndarray Q)) (s : rng_state) :
  mask_to_img random3 cv2_resize [] s = (Raise IndexError, s).
Proof. reflexivity. Qed.

(** ** Resizing and the order of the axes *)

Lemma flat_map_length_const {A B : Type} (f : A -> list B) (k : nat) (l : list A) :
  (forall x, length (f x) = k) -> length (flat_map f l) = length l * k.
Proof.
  intros H. induction l as [| x l IH]; simpl.
  - reflexivity.
  - rewrite length_app, H, IH. reflexivity.
Qed.

Lemma concat_repeat_length {A : Type} (l : list A) (k : nat) :
  length (concat (repeat l k)) = k * length l.
Proof.
  induction k as [| k IH]; simpl.
  - reflexivity.
  - rewrite length_app, IH. reflexivity.
Qed.

Lemma image_array_wf (img : image) :
  length (pixels img) = im_rows img * im_cols img -> wf_array (image_array img).
Proof.
  intros H. unfold wf_array, image_array. simpl.
  rewrite (@flat_map_length_const _ _ _ 3) by (intros [[r g] b]; reflexivity).
  rewrite H. lia.
Qed.

Lemma ceil_div_covers (n len : nat) :
  0 < len -> n <= (n + len - 1) / len * len.
Proof.
  intros Hpos.
  pose proof (Nat.div_mod_eq (n + len - 1) len) as Hdiv.
  pose proof (Nat.mod_upper_bound (n + len - 1) len) as Hmod.
  remember ((n + len - 1) / len) as q. remember ((n + len - 1) mod len) as r.
  assert (Hr : r < len) by (apply Hmod; lia).
  nia.
Qed.

(** [np.resize] always returns an array of the requested shape. *)
Lemma np_resize_wf (x : ndarray Q) (new_shape : list nat) :
  shape (np_resize x new_shape) = new_shape /\ wf_array (np_resize x new_shape).
Proof.
  unfold np_resize, wf_array.
  destruct (length (data x)) as [| len'] eqn:Hlen; cbn [shape data].
  - split; [reflexivity | apply repeat_length].
  - split; [reflexivity |].
    rewrite length_firstn, concat_repeat_length, Hlen.
    apply Nat.min_l. apply ceil_div_covers. lia.
Qed.

(** On an array that already has the requested number of elements,
    [np.resize] keeps the buffer as it is: only the shape changes. *)
Lemma np_resize_same_size (x : ndarray Q) (new_shape : list nat) :
  length (data x) = size_of new_shape ->
  0 < length (data x) ->
  np_resize x new_shape = {| shape := new_shape; data := data x |}.
Proof.
  intros Hsize Hpos. unfold np_resize.
  destruct (length (data x)) as [| len'] eqn:Hlen; [lia |].
  f_equal. rewrite <- Hsize.
  replace ((S len' + S len' - 1) / S len') with 1.
  - cbn [repeat concat]. rewrite app_nil_r, <- Hlen. apply firstn_all.
  - apply (Nat.div_unique _ _ 1 len'); lia.
Qed.

(** Line 139 on a three-dimensional array: the channel extent moves to the
    front of the shape, the buffer stays as it is. *)
Lemma axis_reorder_keeps_buffer (img : ndarray Q) (d0 d1 d2 : nat) :
  shape img = [d0; d1; d2] ->
  wf_array img ->
  0 < length (data img) ->
  axis_reorder img = Ok {| shape := [d2; d0; d1]; data := data img |}.
Proof.
  intros Hshape Hwf Hpos. unfold axis_reorder. rewrite Hshape.
  cbn [rev app index nth_error rbind].
  rewrite np_resize_same_size; [reflexivity | | exact Hpos].
  unfold wf_array in Hwf. rewrite Hwf, Hshape. unfold size_of, fold_right. lia.
Qed.

Lemma nearest_resize_contract : resizes_to_requested_size nearest_resize.
Proof.
  intros img rows cols width height Hshape _ Hr Hc Hw Hh.
  unfold nearest_resize. rewrite Hshape.
  apply Nat.ltb_lt in Hr, Hc, Hw, Hh. rewrite Hr, Hc, Hw, Hh. cbn [andb].
  eexists. split; [reflexivity |]. split; [reflexivity |].
  unfold wf_array. cbn [shape data].
  rewrite (@flat_map_length_const _ _ _ (width * 3)).
  - rewrite length_seq. unfold size_of, fold_right. lia.
  - intros y. rewrite (@flat_map_length_const _ _ _ 3).
    + rewrite length_seq. reflexivity.
    + intros x. rewrite length_map, length_seq. reflexivity.
Qed.

(** C4: for a non-empty list of masks whose grids have one non-empty
    extent, whatever that extent is, [mask_to_img] returns a tensor of
    single-precision floats of shape [(1, 3, 256, 256)], given that
    [cv2.resize] returns an image of the requested size. *)
Theorem mask_to_img_shape
  (rng_state : Type) (random3 : rng_state -> color * rng_state)
  (cv2_resize : ndarray Q -> nat * nat -> result (ndarray Q))
  (masks : list mask) (rows cols : nat) (s : rng_state) :
  resizes_to_requested_size cv2_resize ->
  masks <> [] ->
  0 < rows -> 0 < cols ->
  (forall m, In m masks -> grid_of rows cols m) ->
  exists t,
    mask_to_img random3 cv2_resize masks s
    = (Ok t, after_draws random3 (length masks) s)
    /\ t_dtype t = Float32
    /\ t_shape t = [1; 3; 256; 256]
    /\ length (t_data t) = size_of (t_shape t).
Proof.
  intros Hcv Hne Hr Hc Hgrid.
  destruct (@composite_pixels rng_state random3 masks rows cols s Hne Hgrid)
    as (img & Hrun & Hir & Hic & Hl & _).
  destruct (Hcv (image_array img) rows cols 256 256) as (out & Hres & Hshape & Hwf);
    try lia.
  { unfold image_array. cbn [shape]. rewrite Hir, Hic. reflexivity. }
  { apply image_array_wf. rewrite Hl, Hir, Hic. reflexivity. }
  unfold mask_to_img. rewrite Hrun. unfold to_model_input. rewrite Hres.
  cbn [rbind]. unfold axis_reorder. rewrite Hshape.
  cbn [rev app index nth_error rbind].
  destruct (np_resize_wf out [3; 256; 256]) as [Hs Hw].
  eexists. split; [reflexivity |]. split; [reflexivity |].
  cbn [t_shape t_data to_float32 unsqueeze0 from_numpy]. rewrite Hs.
  split; [reflexivity |].
  unfold wf_array in Hw. rewrite Hw, Hs. unfold size_of. cbn [fold_right]. lia.
Qed.

Lemma mask_to_img_shape_witness :
  exists t,
    mask_to_img counter_random3 nearest_resize [small_mask; large_mask] 0
    = (Ok t, after_draws counter_random3 2 0)
    /\ t_dtype t = Float32
    /\ t_shape t = [1; 3; 256; 256]
    /\ length (t_data t) = size_of (t_shape t).
Proof.
  apply (@mask_to_img_shape nat counter_random3 nearest_resize
           [small_mask; large_mask] 2 2 0).
  - exact nearest_resize_contract.
  - discriminate.
  - lia.
  - lia.
  - intros m [<- | [<- | []]]; split; reflexivity.
Defined.

Lemma one_dot_wf : wf_array one_dot.
Proof.
  unfold wf_array, one_dot. cbn [shape data].
  rewrite length_app, repeat_length. cbn [length].
  unfold size_of. cbn [fold_right]. lia.
Qed.

(** C2 (defect of the code): line 139 moves the channel extent to the
    front of the shape with [np.resize], which keeps the buffer in its
    channel-last order.  On the resized canvas [one_dot] the value at
    (channel 0, row 0, column 1) of the result is 1/2, the green of the
    pixel (0, 0), where the canvas has 1 at (row 0, column 1, channel 0). *)
Theorem axis_reorder_scrambles_channels :
  exists out,
    axis_reorder one_dot = Ok out
    /\ shape out = [3; 256; 256]
    /\ data out = data one_dot
    /\ get3 out 0 0 1 = Ok (1 # 2)%Q
    /\ get3 one_dot 0 0 1 = Ok (1 # 2)%Q
    /\ get3 one_dot 0 1 0 = Ok 1%Q.
Proof.
  eexists. split.
  - apply axis_reorder_keeps_buffer with (d0 := 256) (d1 := 256) (d2 := 3).
    + reflexivity.
    + exact one_dot_wf.
    + unfold one_dot. cbn [data]. rewrite length_app. cbn [length]. lia.
  - repeat split; reflexivity.
Qed.

(* ================================================================== *)
(** * Further properties of the renderer *)

Lemma strided_rows_all (n : nat) : strided_rows n 1 = seq 0 n.
Proof.
  unfold strided_rows. apply forallb_filter_id.
  apply forallb_forall. intros r _. rewrite Nat.mod_1_r. reflexivity.
Qed.

Lemma column_eval (t : array2) (j : nat) :
  column t j = if j <? ncols t then Ok (rows_column t j) else Raise IndexError.
Proof.
  unfold column, column_step, rows_column. rewrite strided_rows_all. reflexivity.
Qed.

Lemma index_nth {A : Type} (xs : list A) (i : nat) (d : A) :
  i < length xs -> index xs i = Ok (nth i xs d).
Proof.
  intros H. unfold index. rewrite (nth_error_nth' xs d H). reflexivity.
Qed.

Lemma index_ok_iff {A : Type} (xs : list A) (i : nat) :
  (exists x, index xs i = Ok x) <-> i < length xs.
Proof.
  split.
  - intros [x H]. apply index_ok_lt in H. tauto.
  - apply index_lt_ok.
Qed.

Lemma alpha_at_eval (alphas : option (list Q)) (i : nat) :
  listed alphas i -> alpha_at alphas i = Ok (alpha_or_one alphas i).
Proof.
  unfold listed, alpha_at, alpha_or_one. destruct alphas as [l |]; intros H.
  - apply index_nth. apply H. reflexivity.
  - reflexivity.
Qed.

Lemma alpha_at_ok_listed (alphas : option (list Q)) (i : nat) (q : Q) :
  alpha_at alphas i = Ok q -> listed alphas i.
Proof.
  unfold alpha_at, listed. destruct alphas as [l |]; intros H l' [= <-].
  apply index_ok_lt in H. tauto.
Qed.

(** A trajectory is drawn in full exactly when it is drawable. *)
Lemma plot_traj_line_drawable (a : plot_args) (i : nat) (t : array2) :
  2 <= ncols t ->
  i < length (traj_colors a) ->
  listed (traj_labels a) i ->
  listed (traj_alphas a) i ->
  plot_traj_line a i t = ([line_for a (i, t)], Ok tt).
Proof.
  intros Hn Hc Hl Ha. unfold plot_traj_line, line_for.
  assert (H0 : (0 <? ncols t) = true) by (apply Nat.ltb_lt; lia).
  assert (H1 : (1 <? ncols t) = true) by (apply Nat.ltb_lt; lia).
  rewrite !column_eval, H0, H1.
  rewrite (index_nth (traj_colors a) WHITE Hc), (alpha_at_eval Ha).
  unfold label_at. destruct (traj_labels a) as [labels |].
  - rewrite (index_nth labels EmptyString (Hl labels eq_refl)). reflexivity.
  - reflexivity.
Qed.

Lemma plot_traj_line_ok_inv (a : plot_args) (i : nat) (t : array2) :
  snd (plot_traj_line a i t) = Ok tt ->
  2 <= ncols t
  /\ i < length (traj_colors a)
  /\ listed (traj_labels a) i
  /\ listed (traj_alphas a) i.
Proof.
  unfold plot_traj_line. rewrite !column_eval.
  destruct (Nat.ltb_spec 0 (ncols t)) as [H0 | H0];
    [| destruct (traj_labels a); discriminate].
  destruct (Nat.ltb_spec 1 (ncols t)) as [H1 | H1];
    [| destruct (traj_labels a); discriminate].
  destruct (index (traj_colors a) i) as [c | e] eqn:Hc;
    [| destruct (traj_labels a); discriminate].
  apply index_ok_lt in Hc. destruct Hc as [Hc _].
  destruct (traj_labels a) as [labels |].
  - destruct (index labels i) as [l | e] eqn:Hl; [| discriminate].
    destruct (alpha_at (traj_alphas a) i) as [al | e] eqn:Ha; [| discriminate].
    intros _. apply index_ok_lt in Hl. apply alpha_at_ok_listed in Ha.
    repeat split; try assumption; try lia.
    intros l' [= <-]. tauto.
  - destruct (alpha_at (traj_alphas a) i) as [al | e] eqn:Ha; [| discriminate].
    intros _. apply alpha_at_ok_listed in Ha.
    repeat split; try assumption; try lia.
    intros l' Hl'. discriminate.
Qed.

Lemma plot_traj_drawable (G : namespace) (a : plot_args) (i : nat) (t : array2) :
  traj_drawable a i t -> plot_traj G a (i, t) = ([line_for a (i, t)], Ok tt).
Proof.
  intros (Hn & Hno & Hc & Hl & Ha). unfold plot_traj.
  rewrite plot_traj_line_drawable by assumption.
  rewrite plot_traj_quiver_skipped by assumption.
  reflexivity.
Qed.

Lemma plot_traj_ok_inv (a : plot_args) (i : nat) (t : array2) :
  snd (plot_traj viz_utils_globals a (i, t)) = Ok tt -> traj_drawable a i t.
Proof.
  unfold plot_traj. intros H.
  destruct (plot_traj_line a i t) as [tr [[] | e]] eqn:Hline; [| discriminate].
  assert (Hok : snd (plot_traj_line a i t) = Ok tt) by (rewrite Hline; reflexivity).
  apply plot_traj_line_ok_inv in Hok. destruct Hok as (Hn & Hc & Hl & Ha).
  repeat split; try assumption.
  unfold Py.bind in H. unfold plot_traj_quiver, no_indicator in *.
  destruct (Nat.ltb_spec 2 (ncols t)) as [H2 | H2]; [| left; exact H2].
  destruct (Z.ltb_spec 0 (quiver_freq a)) as [Hq | Hq]; [| right; exact Hq].
  discriminate.
Qed.

Lemma plot_point_drawable (a : plot_args) (i : nat) (pt : list Q) :
  point_drawable a i pt -> plot_point a (i, pt) = ([marker_for a (i, pt)], Ok tt).
Proof.
  intros (Hn & Hc & Ha & Hl). unfold plot_point, marker_for.
  rewrite (@index_nth _ pt 0 0%Q) by lia.
  rewrite (@index_nth _ pt 1 0%Q) by lia.
  rewrite (index_nth (point_colors a) WHITE Hc), (alpha_at_eval Ha).
  unfold label_at. destruct (point_labels a) as [labels |].
  - rewrite (index_nth labels EmptyString (Hl labels eq_refl)). reflexivity.
  - reflexivity.
Qed.

Lemma plot_point_ok_inv (a : plot_args) (i : nat) (pt : list Q) :
  snd (plot_point a (i, pt)) = Ok tt -> point_drawable a i pt.
Proof.
  unfold plot_point, point_drawable.
  destruct (index pt 0) as [x | e] eqn:H0; [| destruct (point_labels a); discriminate].
  destruct (index pt 1) as [y | e] eqn:H1; [| destruct (point_labels a); discriminate].
  destruct (index (point_colors a) i) as [c | e] eqn:Hc;
    [| destruct (point_labels a); discriminate].
  destruct (alpha_at (point_alphas a) i) as [al | e] eqn:Ha;
    [| destruct (point_labels a); discriminate].
  apply index_ok_lt in H1, Hc. apply alpha_at_ok_listed in Ha.
  destruct (point_labels a) as [labels |].
  - destruct (index labels i) as [l | e] eqn:Hl; [| discriminate].
    intros _. apply index_ok_lt in Hl.
    repeat split; try tauto; try lia. intros l' [= <-]. tauto.
  - intros _. repeat split; try tauto; try lia. intros l' Hl'. discriminate.
Qed.

(** A loop whose every body draws one thing and returns. *)
Lemma for_each_all_ok {E A : Type} (xs : list A) (body : A -> Py.t E unit) (f : A -> E) :
  (forall x, In x xs -> body x = ([f x], Ok tt)) ->
  Py.for_each xs body = (map f xs, Ok tt).
Proof.
  induction xs as [| x xs IH]; intros H; simpl.
  - reflexivity.
  - rewrite (H x (or_introl eq_refl)). simpl.
    rewrite IH by (intros y Hy; apply H; right; exact Hy). reflexivity.
Qed.

(** A loop that returns has run every body to its end. *)
Lemma for_each_ok_inv {E A : Type} (xs : list A) (body : A -> Py.t E unit) :
  snd (Py.for_each xs body) = Ok tt ->
  forall x, In x xs -> snd (body x) = Ok tt.
Proof.
  induction xs as [| x xs IH]; intros H y Hy; [contradiction |].
  simpl in H. destruct (body x) as [tr [[] | e]] eqn:Hb; simpl in H; [| discriminate].
  destruct (Py.for_each xs body) as [tr' r] eqn:Hloop. simpl in H.
  destruct Hy as [<- | Hy].
  - rewrite Hb. reflexivity.
  - apply IH; assumption.
Qed.

Lemma enumerate_from_in {A : Type} (xs : list A) :
  forall k i x, In (i, x) (combine (seq k (length xs)) xs) <->
                (k <= i /\ nth_error xs (i - k) = Some x).
Proof.
  induction xs as [| y xs IH]; intros k i x; simpl.
  - split; [contradiction |]. intros [_ H]. destruct (i - k); discriminate.
  - rewrite IH. split.
    + intros [[= <- <-] | [Hk Hn]].
      * split; [lia |]. rewrite Nat.sub_diag. reflexivity.
      * split; [lia |]. replace (i - k) with (S (i - S k)) by lia. exact Hn.
    + intros [Hk Hn]. destruct (i - k) as [| n] eqn:Hd.
      * left. injection Hn as <-. f_equal. lia.
      * right. split; [lia |]. replace (i - S k) with n by lia. exact Hn.
Qed.

Lemma enumerate_in {A : Type} (xs : list A) (i : nat) (x : A) :
  In (i, x) (enumerate xs) <-> nth_error xs i = Some x.
Proof.
  unfold enumerate. rewrite enumerate_from_in, Nat.sub_0_r.
  split; [tauto | intros H; split; [lia | exact H]].
Qed.

(** The result of a call in terms of its parts. *)
Lemma plot_returns_iff (a : plot_args) :
  snd (plot_trajs_and_points viz_utils_globals a) = Ok tt
  <-> (~ precondition_violated a /\ all_drawable a).
Proof.
  split.
  - intros H.
    destruct (preconditions_eval a) as [(Hv & msg & _ & Hpre) | (Hnv & Hpre)].
    { unfold plot_trajs_and_points in H. rewrite Hpre in H. discriminate. }
    split; [exact Hnv |].
    rewrite (after_preconditions viz_utils_globals a Hpre) in H.
    destruct (draw_loops viz_utils_globals a) as [tr [[] | e]] eqn:Hloops;
      [| discriminate].
    clear H. unfold draw_loops in Hloops.
    destruct (Py.for_each (enumerate (list_trajs a)) (plot_traj viz_utils_globals a))
      as [tr1 [[] | e]] eqn:Ht; [| discriminate].
    unfold Py.bind in Hloops.
    destruct (Py.for_each (enumerate (list_points a)) (plot_point a))
      as [tr2 [[] | e]] eqn:Hp; [| discriminate].
    split.
    + intros i t Hi. apply plot_traj_ok_inv.
      apply (for_each_ok_inv (enumerate (list_trajs a))).
      * rewrite Ht. reflexivity.
      * apply enumerate_in. exact Hi.
    + intros i pt Hi. apply plot_point_ok_inv.
      apply (for_each_ok_inv (enumerate (list_points a))).
      * rewrite Hp. reflexivity.
      * apply enumerate_in. exact Hi.
  - intros (Hnv & Ht & Hp).
    apply preconditions_ok_iff in Hnv.
    rewrite (after_preconditions viz_utils_globals a Hnv). unfold draw_loops.
    rewrite (for_each_all_ok (enumerate (list_trajs a)) _ (line_for a)).
    + rewrite (for_each_all_ok (enumerate (list_points a)) _ (marker_for a)).
      * rewrite finish_eval. reflexivity.
      * intros [i pt] Hin. apply plot_point_drawable, Hp, enumerate_in, Hin.
    + intros [i t] Hin. apply plot_traj_drawable, Ht, enumerate_in, Hin.
Qed.

(** What a call that can be drawn in full puts on the axes. *)
Lemma plot_trace_when_drawable (G : namespace) (a : plot_args) :
  ~ precondition_violated a ->
  all_drawable a ->
  plot_trajs_and_points G a
  = (map (line_for a) (enumerate (list_trajs a))
     ++ map (marker_for a) (enumerate (list_points a))
     ++ legend_ops a ++ [AxSetAspect "equal" "box"],
     Ok tt).
Proof.
  intros Hnv (Ht & Hp).
  apply preconditions_ok_iff in Hnv.
  rewrite (after_preconditions G a Hnv). unfold draw_loops.
  rewrite (for_each_all_ok (enumerate (list_trajs a)) _ (line_for a)).
  - rewrite (for_each_all_ok (enumerate (list_points a)) _ (marker_for a)).
    + rewrite finish_eval. simpl. rewrite <- app_assoc. reflexivity.
    + intros [i pt] Hin. apply plot_point_drawable, Hp, enumerate_in, Hin.
  - intros [i t] Hin. apply plot_traj_drawable, Ht, enumerate_in, Hin.
Qed.

(** X1: in the module as it is, a call returns normally exactly when the
    four assertions pass and every trajectory and point can be drawn: each
    trajectory has at least two columns and no heading to draw, and has a
    colour, a label and an alpha wherever such a list is given; each point
    has two coordinates, a colour, and a label and an alpha likewise.  The
    axes then receive one line per trajectory, in order, one marker per
    point, in order, the legend calls if any, and [set_aspect]. *)
Theorem renderer_returns_iff_drawable (a : plot_args) :
  (snd (plot_trajs_and_points viz_utils_globals a) = Ok tt
   <-> (~ precondition_violated a /\ all_drawable a))
  /\ (~ precondition_violated a /\ all_drawable a ->
      plot_trajs_and_points viz_utils_globals a
      = (map (line_for a) (enumerate (list_trajs a))
         ++ map (marker_for a) (enumerate (list_points a))
         ++ legend_ops a ++ [AxSetAspect "equal" "box"],
         Ok tt)).
Proof.
  split.
  - apply plot_returns_iff.
  - intros [Hnv Hall]. apply plot_trace_when_drawable; assumption.
Qed.

(** X2: a call that passes only trajectories and points, leaving every
    keyword at its default, returns normally exactly when there are two
    points of at least two coordinates and at most two trajectories, each
    of exactly two columns. *)
Theorem default_call_returns_iff (trajs : list array2) (points : list (list Q)) :
  snd (plot_trajs_and_points viz_utils_globals (default_args trajs points)) = Ok tt
  <-> (length points = 2
       /\ length trajs <= 2
       /\ (forall t, In t trajs -> ncols t = 2)
       /\ (forall pt, In pt points -> 2 <= length pt)).
Proof.
  rewrite plot_returns_iff. unfold all_drawable, traj_drawable, point_drawable,
    precondition_violated, no_indicator, listed. simpl.
  split.
  - intros (Hnv & Ht & Hp).
    assert (Hpoints : length points = 2).
    { destruct (Nat.eq_dec (length points) 2) as [H | H]; [exact H |].
      exfalso. apply Hnv. right; right; right.
      eexists. split; [reflexivity |]. simpl. congruence. }
    split; [exact Hpoints |]. split; [| split].
    + destruct (nth_error trajs 2) as [t |] eqn:H2.
      * destruct (Ht 2 t H2) as (_ & _ & Hc & _). lia.
      * apply nth_error_None in H2. lia.
    + intros t Hin. apply In_nth_error in Hin. destruct Hin as [i Hi].
      destruct (Ht i t Hi) as (Hn & [Hno | Hno] & _); lia.
    + intros pt Hin. apply In_nth_error in Hin. destruct Hin as [i Hi].
      destruct (Hp i pt Hi) as (Hn & _). exact Hn.
  - intros (Hpoints & Htrajs & Hcols & Hcoords). split; [| split].
    + intros [[_ H] | [H | [(l & _ & _ & H) | (l & [= <-] & H)]]];
        try discriminate; simpl in *; lia.
    + intros i t Hi.
      assert (Hlt : i < length trajs) by (apply nth_error_Some; congruence).
      apply nth_error_In in Hi. specialize (Hcols t Hi).
      repeat split; try lia.
      * intros l [= <-]. simpl. lia.
      * intros l H. discriminate.
    + intros i pt Hi.
      assert (Hlt : i < length points) by (apply nth_error_Some; congruence).
      apply nth_error_In in Hi. specialize (Hcoords pt Hi).
      repeat split; try lia.
      * intros l H. discriminate.
      * intros l [= <-]. simpl. lia.
Qed.

Lemma drawing_not_set_aspect (tr : list draw_op) :
  Forall is_drawing tr -> existsb is_set_aspect tr = false.
Proof.
  induction 1 as [| op tr [_ Ha] _ IH]; simpl.
  - reflexivity.
  - rewrite Ha, IH. reflexivity.
Qed.

(** X3: whatever the arguments and the namespace, [set_aspect] is called
    exactly when the call returns normally; a call that raises has made
    neither a [legend] nor a [set_aspect] call, so a failure never leaves
    a legend behind. *)
Theorem set_aspect_iff_returns (G : namespace) (a : plot_args) :
  (existsb is_set_aspect (fst (plot_trajs_and_points G a)) = true
   <-> snd (plot_trajs_and_points G a) = Ok tt)
  /\ (snd (plot_trajs_and_points G a) <> Ok tt ->
      existsb is_legend (fst (plot_trajs_and_points G a)) = false
      /\ existsb is_set_aspect (fst (plot_trajs_and_points G a)) = false).
Proof.
  destruct (preconditions_eval a) as [(Hv & msg & _ & Hpre) | (Hnv & Hpre)].
  - assert (Hcall : plot_trajs_and_points G a = ([], Raise (AssertionError msg))).
    { unfold plot_trajs_and_points. rewrite Hpre. reflexivity. }
    rewrite Hcall. simpl. split; [split; discriminate | intros _; split; reflexivity].
  - rewrite (after_preconditions G a Hpre), finish_eval.
    pose proof (draw_loops_respects G a) as [Hdraw _].
    destruct (draw_loops G a) as [tr [[] | e]]; simpl in Hdraw;
      unfold Py.bind; simpl fst; simpl snd.
    + split; [| intros H; congruence].
      split; [reflexivity | intros _].
      rewrite !existsb_app. simpl. rewrite !orb_true_r. reflexivity.
    + rewrite (drawing_not_legend Hdraw), (drawing_not_set_aspect Hdraw).
      split; [split; discriminate | intros _; split; reflexivity].
Qed.

Lemma for_each_ext {E A : Type} (xs : list A) (body body' : A -> Py.t E unit) :
  (forall x, In x xs -> body x = body' x) ->
  Py.for_each xs body = Py.for_each xs body'.
Proof.
  induction xs as [| x xs IH]; intros H; simpl.
  - reflexivity.
  - rewrite (H x (or_introl eq_refl)).
    rewrite IH by (intros y Hy; apply H; right; exact Hy). reflexivity.
Qed.

(** X4: [frame_dir] is never read, and [quiver_freq] is read only for a
    trajectory with more than two columns: when no trajectory has more,
    changing either argument changes neither the result nor any call made
    on the axes. *)
Theorem quiver_freq_and_frame_dir_unused
  (G : namespace) (a : plot_args) (q : Z) (dir : string) :
  (forall t, In t (list_trajs a) -> ncols t <= 2) ->
  plot_trajs_and_points G (with_quiver_and_frames a q dir)
  = plot_trajs_and_points G a.
Proof.
  intros Hcols. unfold plot_trajs_and_points, draw_loops.
  change (preconditions (with_quiver_and_frames a q dir)) with (preconditions a).
  change (finish (with_quiver_and_frames a q dir)) with (finish a).
  change (list_trajs (with_quiver_and_frames a q dir)) with (list_trajs a).
  change (list_points (with_quiver_and_frames a q dir)) with (list_points a).
  rewrite (for_each_ext (enumerate (list_trajs a))
             (plot_traj G (with_quiver_and_frames a q dir)) (plot_traj G a)).
  - reflexivity.
  - intros [i t] Hin. unfold plot_traj.
    apply enumerate_in, nth_error_In in Hin.
    rewrite !plot_traj_quiver_skipped by (left; apply Hcols; exact Hin).
    reflexivity.
Qed.

Lemma quiver_freq_and_frame_dir_unused_witness :
  plot_trajs_and_points viz_utils_globals
    (with_quiver_and_frames (unlabelled [zigzag; zigzag] [corner]) 0 "elsewhere")
  = plot_trajs_and_points viz_utils_globals (unlabelled [zigzag; zigzag] [corner]).
Proof.
  apply quiver_freq_and_frame_dir_unused.
  intros t [<- | [<- | []]]; simpl; lia.
Defined.

(* ================================================================== *)
(** * Further properties of the mask converter *)

Section ConverterEdges.

Variable rng_state : Type.
Variable random3 : rng_state -> color * rng_state.
Variable cv2_resize : ndarray Q -> nat * nat -> result (ndarray Q).

(** The painting loop stops with an index error at the first grid that
    has not the extent of the canvas. *)
Lemma paint_all_mismatch (anns : list mask) :
  forall (img : image) (s : rng_state),
    (exists m, In m anns /\ shape (segmentation m) <> [im_rows img; im_cols img]) ->
    fst (paint_all random3 anns img s) = Raise IndexError.
Proof.
  induction anns as [| ann anns IH]; intros img s (m & Hin & Hne).
  - contradiction.
  - simpl. destruct (random3 s) as [c s']. unfold set_masked.
    destruct (list_eq_dec Nat.eq_dec (shape (segmentation ann))
                [im_rows img; im_cols img]) as [Heq | Hneq].
    + apply IH. exists m. split; [| exact Hne].
      destruct Hin as [<- | Hin]; [contradiction | exact Hin].
    + reflexivity.
Qed.

(** Lines 132-133 when every grid has the extent of the first one. *)
Lemma composite_unfold (masks : list mask) (rows cols : nat) (s : rng_state) :
  masks <> [] ->
  (forall m, In m masks -> shape (segmentation m) = [rows; cols]) ->
  composite random3 masks s
  = paint_all random3 (sorted_by_area masks) (np_ones rows cols) s.
Proof.
  intros Hne Hshape. destruct masks as [| first rest]; [congruence |].
  unfold composite, index, grid_rows, grid_cols. cbn [nth_error].
  rewrite (Hshape first (or_introl eq_refl)). reflexivity.
Qed.

(** X5: when the grids are two-dimensional but one of them has not the
    extent of the first mask's grid, [mask_to_img] raises an index error
    at the assignment [mask_img[m] = ...] and returns no tensor. *)
Theorem mask_to_img_mixed_extents
  (masks : list mask) (first : mask) (rest : list mask) (rows cols : nat)
  (s : rng_state) :
  masks = first :: rest ->
  shape (segmentation first) = [rows; cols] ->
  (forall m, In m masks -> length (shape (segmentation m)) = 2) ->
  (exists m, In m masks /\ shape (segmentation m) <> [rows; cols]) ->
  fst (mask_to_img random3 cv2_resize masks s) = Raise IndexError.
Proof.
  intros Hmasks Hfirst _ (m & Hin & Hne).
  assert (Hpaint : fst (paint_all random3 (sorted_by_area masks) (np_ones rows cols) s)
                   = Raise IndexError).
  { apply paint_all_mismatch. exists m. split; [| exact Hne].
    eapply Permutation_in; [symmetry; apply sorted_by_area_perm | exact Hin]. }
  assert (Hidx : index masks 0 = Ok first) by (rewrite Hmasks; reflexivity).
  unfold mask_to_img, composite. rewrite Hidx.
  unfold grid_rows, grid_cols. rewrite Hfirst. unfold index. cbn [nth_error].
  destruct (paint_all random3 (sorted_by_area masks) (np_ones rows cols) s)
    as [[img | e] s'] eqn:Hrun; simpl in Hpaint; [discriminate |].
  injection Hpaint as ->. reflexivity.
Qed.

End ConverterEdges.

(** A grid of another extent than the first one. *)
Lemma mask_to_img_mixed_extents_witness :
  fst (mask_to_img counter_random3 nearest_resize [small_mask; strip_mask] 0)
  = Raise IndexError.
Proof.
  eapply mask_to_img_mixed_extents with (rows := 2) (cols := 2).
  - reflexivity.
  - reflexivity.
  - intros m [<- | [<- | []]]; reflexivity.
  - eexists. split; [right; left; reflexivity |]. simpl. discriminate.
Defined.

Lemma insert_by_area_filter (k : Z) (x : mask) (l : list mask) :
  filter (fun m => (area m =? k)%Z) (insert_by_area x l)
  = filter (fun m => (area m =? k)%Z) (x :: l).
Proof.
  induction l as [| y ys IH]; simpl.
  - reflexivity.
  - destruct (Z.ltb_spec (area x) (area y)) as [Hlt | Hge]; simpl.
    + rewrite IH. simpl.
      destruct (Z.eqb_spec (area x) k) as [Hx | Hx];
        destruct (Z.eqb_spec (area y) k) as [Hy | Hy]; try reflexivity.
      lia.
    + reflexivity.
Qed.

(** X6: the sort of line 132 is stable: the masks of any one area come
    out in the order they have in [masks]. *)
Theorem sorted_by_area_stable (masks : list mask) (k : Z) :
  filter (fun m => (area m =? k)%Z) (sorted_by_area masks)
  = filter (fun m => (area m =? k)%Z) masks.
Proof.
  induction masks as [| x l IH]; simpl.
  - reflexivity.
  - rewrite insert_by_area_filter. simpl. rewrite IH. reflexivity.
Qed.

(** X7: what [mask_to_img] returns is the buffer of the resized canvas,
    element for element and in the same (channel-last) order, under the
    shape [(1, 3, 256, 256)]: lines 139-142 change the shape and the
    element type only. *)
Theorem mask_to_img_keeps_resized_buffer
  (rng_state : Type) (random3 : rng_state -> color * rng_state)
  (cv2_resize : ndarray Q -> nat * nat -> result (ndarray Q))
  (masks : list mask) (s s' : rng_state) (canvas : image) (resized : ndarray Q) :
  composite random3 masks s = (Ok canvas, s') ->
  cv2_resize (image_array canvas) (256, 256) = Ok resized ->
  shape resized = [256; 256; 3] ->
  wf_array resized ->
  mask_to_img random3 cv2_resize masks s
  = (Ok {| t_dtype := Float32; t_shape := [1; 3; 256; 256]; t_data := data resized |},
     s').
Proof.
  intros Hcanvas Hresize Hshape Hwf.
  assert (Hpos : 0 < length (data resized)).
  { unfold wf_array in Hwf. rewrite Hwf, Hshape. unfold size_of. cbn [fold_right]. lia. }
  unfold mask_to_img. rewrite Hcanvas. unfold to_model_input. rewrite Hresize.
  cbn [rbind]. rewrite (axis_reorder_keeps_buffer Hshape Hwf Hpos).
  reflexivity.
Qed.

Lemma mask_to_img_keeps_resized_buffer_witness :
  exists resized,
    nearest_resize (image_array two_mask_canvas) (256, 256) = Ok resized
    /\ mask_to_img counter_random3 nearest_resize [small_mask; large_mask] 0
       = (Ok {| t_dtype := Float32; t_shape := [1; 3; 256; 256];
                t_data := data resized |}, 2).
Proof.
  destruct (@nearest_resize_contract (image_array two_mask_canvas) 2 2 256 256)
    as (resized & Hres & Hshape & Hwf); try lia; try reflexivity.
  exists resized. split; [exact Hres |].
  apply (@mask_to_img_keeps_resized_buffer nat counter_random3 nearest_resize
           [small_mask; large_mask] 0 2 two_mask_canvas resized);
    [reflexivity | exact Hres | exact Hshape | exact Hwf].
Defined.

Lemma strongly_sorted_perm_unique {A : Type} (R : A -> A -> Prop) (l1 : list A) :
  forall l2,
    StronglySorted R l1 ->
    StronglySorted R l2 ->
    Permutation l1 l2 ->
    (forall x y, In x l1 -> In y l1 -> R x y -> R y x -> x = y) ->
    l1 = l2.
Proof.
  induction l1 as [| a l1 IH]; intros l2 S1 S2 P Anti.
  - apply Permutation_nil in P. congruence.
  - destruct l2 as [| b l2].
    { symmetry in P. apply Permutation_nil in P. discriminate. }
    apply StronglySorted_inv in S1. destruct S1 as [S1 F1].
    apply StronglySorted_inv in S2. destruct S2 as [S2 F2].
    rewrite Forall_forall in F1, F2.
    assert (Hab : a = b).
    { assert (Ha : In a (b :: l2)) by (eapply Permutation_in; [exact P | left; reflexivity]).
      assert (Hb : In b (a :: l1))
        by (eapply Permutation_in; [symmetry; exact P | left; reflexivity]).
      destruct Ha as [Ha | Ha]; [congruence |].
      destruct Hb as [Hb | Hb]; [congruence |].
      apply Anti; [left; reflexivity | right; exact Hb | apply F1, Hb | apply F2, Ha]. }
    subst b. f_equal. apply IH; try assumption.
    + eapply Permutation_cons_inv. exact P.
    + intros x y Hx Hy. apply Anti; right; assumption.
Qed.

Lemma nodup_map_injective {A B : Type} (f : A -> B) (l : list A) :
  NoDup (map f l) ->
  forall x y, In x l -> In y l -> f x = f y -> x = y.
Proof.
  induction l as [| a l IH]; intros Hnd x y Hx Hy Hf; [contradiction |].
  simpl in Hnd. apply NoDup_cons_iff in Hnd. destruct Hnd as [Hnot Hnd].
  destruct Hx as [<- | Hx]; destruct Hy as [<- | Hy].
  - reflexivity.
  - exfalso. apply Hnot. rewrite Hf. apply in_map. exact Hy.
  - exfalso. apply Hnot. rewrite <- Hf. apply in_map. exact Hx.
  - apply IH; assumption.
Qed.

Lemma sorted_by_area_of_permutation (masks masks' : list mask) :
  Permutation masks masks' ->
  NoDup (map area masks) ->
  sorted_by_area masks = sorted_by_area masks'.
Proof.
  intros P Hnd.
  apply (@strongly_sorted_perm_unique _ area_ge).
  - apply sorted_by_area_sorted.
  - apply sorted_by_area_sorted.
  - rewrite !sorted_by_area_perm. exact P.
  - intros x y Hx Hy Hxy Hyx.
    apply (nodup_map_injective area masks Hnd).
    + eapply Permutation_in; [apply sorted_by_area_perm | exact Hx].
    + eapply Permutation_in; [apply sorted_by_area_perm | exact Hy].
    + unfold area_ge in *. lia.
Qed.

(** X8: when the masks have pairwise different areas and grids of one
    extent, the order in which they are listed does not matter: any
    rearrangement of the list gives the same result, from the same
    generator state. *)
Theorem mask_to_img_order_irrelevant
  (rng_state : Type) (random3 : rng_state -> color * rng_state)
  (cv2_resize : ndarray Q -> nat * nat -> result (ndarray Q))
  (masks masks' : list mask) (rows cols : nat) (s : rng_state) :
  Permutation masks masks' ->
  NoDup (map area masks) ->
  (forall m, In m masks -> shape (segmentation m) = [rows; cols]) ->
  mask_to_img random3 cv2_resize masks' s = mask_to_img random3 cv2_resize masks s.
Proof.
  intros P Hnd Hshape.
  destruct masks as [| first rest] eqn:Hmasks.
  { apply Permutation_nil in P. subst masks'. reflexivity. }
  rewrite <- Hmasks in *.
  assert (Hne : masks <> []) by (rewrite Hmasks; discriminate).
  assert (Hne' : masks' <> []).
  { intros ->. apply Permutation_sym, Permutation_nil in P. contradiction. }
  assert (Hshape' : forall m, In m masks' -> shape (segmentation m) = [rows; cols]).
  { intros m Hin. apply Hshape. eapply Permutation_in; [symmetry; exact P | exact Hin]. }
  unfold mask_to_img.
  rewrite (composite_unfold random3 s Hne Hshape).
  rewrite (composite_unfold random3 s Hne' Hshape').
  rewrite (sorted_by_area_of_permutation P Hnd). reflexivity.
Qed.

Lemma mask_to_img_order_irrelevant_witness :
  mask_to_img counter_random3 nearest_resize [large_mask; small_mask] 0
  = mask_to_img counter_random3 nearest_resize [small_mask; large_mask] 0.
Proof.
  apply (@mask_to_img_order_irrelevant nat counter_random3 nearest_resize
           [small_mask; large_mask] [large_mask; small_mask] 2 2 0).
  - apply perm_swap.
  - simpl. repeat constructor; simpl; intuition discriminate.
  - intros m [<- | [<- | []]]; reflexivity.
Defined.

(* ================================================================== *)
(** * Further properties of the conversion to 8-bit pixels *)

Lemma nth_flat_map_blocks {A B : Type} (f : A -> list B) (k : nat) (da : A) (db : B)
  (l : list A) :
  (forall x, length (f x) = k) ->
  forall r i, r < length l -> i < k ->
    nth (r * k + i) (flat_map f l) db = nth i (f (nth r l da)) db.
Proof.
  intros Hk. induction l as [| x l IH]; intros r i Hr Hi; simpl in Hr; [lia |].
  simpl flat_map. destruct r as [| r].
  - simpl. rewrite app_nth1 by (rewrite Hk; exact Hi). reflexivity.
  - rewrite app_nth2 by (rewrite Hk; simpl; lia).
    rewrite Hk. replace (S r * k + i - k) with (r * k + i) by (simpl; lia).
    simpl nth. apply IH; lia.
Qed.

(** [np.moveaxis(x, 0, -1)] on three axes: the entry at [(y, x, c)] of the
    result is the entry at [(c, y, x)] of the argument. *)
Lemma np_moveaxis_0_last_entry (arr : ndarray Q) (C H W : nat) :
  shape arr = [C; H; W] ->
  exists moved,
    np_moveaxis_0_last arr = Ok moved
    /\ shape moved = [H; W; C]
    /\ length (data moved) = H * W * C
    /\ forall y x c, y < H -> x < W -> c < C ->
         nth ((y * W + x) * C + c) (data moved) 0%Q
         = nth ((c * H + y) * W + x) (data arr) 0%Q.
Proof.
  intros Hshape. unfold np_moveaxis_0_last. rewrite Hshape.
  eexists. split; [reflexivity |]. cbn [shape data app].
  assert (Hinner : size_of [H; W] = H * W) by (unfold size_of; simpl; lia).
  rewrite Hinner.
  assert (Hblock : forall r : nat,
             length (map (fun i => nth (i * (H * W) + r) (data arr) 0%Q) (seq 0 C)) = C)
    by (intros r; rewrite length_map, length_seq; reflexivity).
  split; [reflexivity |]. split.
  - rewrite (flat_map_length_const _ _ Hblock), length_seq. reflexivity.
  - intros y x c Hy Hx Hc.
    rewrite (nth_flat_map_blocks _ 0 0%Q _ Hblock) by (rewrite ?length_seq; nia).
    rewrite seq_nth by nia. cbn [Nat.add].
    rewrite (nth_indep _ 0%Q (nth (0 * (H * W) + (y * W + x)) (data arr) 0%Q))
      by (rewrite length_map, length_seq; exact Hc).
    rewrite (map_nth (fun i => nth (i * (H * W) + (y * W + x)) (data arr) 0%Q) (seq 0 C) 0 c).
    rewrite seq_nth by exact Hc. cbn [Nat.add]. f_equal. lia.
Qed.

(** The cast of a normalised value: the integer part of [255 v]. *)
Lemma to_uint8_normalised (v : Q) :
  Qle 0 v -> Qle v 1 ->
  to_uint8 (Qmult v 255) = Qfloor (Qmult v 255)
  /\ (0 <= to_uint8 (Qmult v 255) <= 255)%Z.
Proof.
  intros H0 H1. unfold Qle in H0, H1. simpl in H0, H1.
  unfold to_uint8, Qfloor. cbn [Qmult Qnum Qden].
  rewrite Pos.mul_1_r.
  assert (Hn : (0 <= Qnum v * 255)%Z) by lia.
  assert (Hd : (0 < Z.pos (Qden v))%Z) by lia.
  rewrite Z.quot_div_nonneg by lia.
  assert (Hlo : (0 <= Qnum v * 255 / Z.pos (Qden v))%Z) by (apply Z.div_pos; lia).
  assert (Hhi : (Qnum v * 255 / Z.pos (Qden v) <= 255)%Z).
  { apply Z.div_le_upper_bound; lia. }
  rewrite Z.mod_small by lia. split; [reflexivity | lia].
Qed.

(** X9: with [to_numpy] bound, the conversion of lines 122-123 hands the
    model an image in channel-last order: for a tensor of shape
    [(C, H, W)] with values between 0 and 1, the array has the shape
    [(H, W, C)], and its entry at [(y, x, c)] is the integer part of 255
    times the tensor's value at [(c, y, x)], a number from 0 to 255. *)
Theorem generate_masks_pixels
  (G : namespace) (f : tensor -> ndarray Q) (viz_obs : tensor) (model : seg_model)
  (C H W : nat) :
  lookup_global G "to_numpy" = Ok (PyTensorFn f) ->
  shape (f viz_obs) = [C; H; W] ->
  (forall v, In v (data (f viz_obs)) -> Qle 0 v /\ Qle v 1) ->
  length (data (f viz_obs)) = C * H * W ->
  exists img,
    generate_masks G viz_obs model = ([CallGenerate img], Ok (generate model img))
    /\ shape img = [H; W; C]
    /\ length (data img) = H * W * C
    /\ forall y x c, y < H -> x < W -> c < C ->
         nth ((y * W + x) * C + c) (data img) 0%Z
         = Qfloor (Qmult (nth ((c * H + y) * W + x) (data (f viz_obs)) 0%Q) 255)
         /\ (0 <= nth ((y * W + x) * C + c) (data img) 0 <= 255)%Z.
Proof.
  intros HG Hshape Hrange Hlen.
  destruct (np_moveaxis_0_last_entry (f viz_obs) Hshape)
    as (moved & Hmoved & Hms & Hml & Hentry).
  exists (scale_to_uint8 moved).
  split; [apply generate_masks_with_helper with (f := f); assumption |].
  unfold scale_to_uint8. cbn [shape data].
  split; [exact Hms |]. split; [rewrite length_map; exact Hml |].
  intros y x c Hy Hx Hc.
  change 0%Z with (to_uint8 (Qmult 0 255)).
  rewrite (map_nth (fun v => to_uint8 (Qmult v 255))).
  rewrite (Hentry y x c Hy Hx Hc).
  assert (Hin : In (nth ((c * H + y) * W + x) (data (f viz_obs)) 0%Q) (data (f viz_obs))).
  { apply nth_In. rewrite Hlen.
    assert (Hrow : c * H + y + 1 <= C * H) by nia.
    assert (Hall : (c * H + y + 1) * W <= C * H * W) by (apply Nat.mul_le_mono_r; exact Hrow).
    lia. }
  destruct (Hrange _ Hin) as [H0 H1].
  destruct (to_uint8_normalised H0 H1) as [Hfloor Hbound].
  rewrite Hfloor in *. split; [reflexivity | exact Hbound].
Qed.

Lemma generate_masks_pixels_witness :
  exists img,
    generate_masks (("to_numpy"%string, PyTensorFn tensor_array) :: viz_utils_globals)
      two_pixels blind_model
    = ([CallGenerate img], Ok (generate blind_model img))
    /\ shape img = [1; 2; 3]
    /\ nth 2 (data img) 0%Z = 85%Z.
Proof.
  destruct (@generate_masks_pixels
              (("to_numpy"%string, PyTensorFn tensor_array) :: viz_utils_globals)
              tensor_array two_pixels blind_model 3 1 2)
    as (img & Hcall & Hshape & _ & Hentry).
  - reflexivity.
  - reflexivity.
  - intros v Hin. simpl in Hin.
    repeat (destruct Hin as [<- | Hin]; [split; unfold Qle; simpl; lia |]).
    contradiction.
  - reflexivity.
  - exists img. split; [exact Hcall |]. split; [exact Hshape |].
    destruct (Hentry 0 0 2) as [Hval _]; try lia.
    simpl in Hval. exact Hval.
Defined.

(* ================================================================== *)
(** * The diagnostic logger *)

Lemma overwrite_rgba_fst (m : list bool) (c : color) (al : Q) :
  forall px, map fst (overwrite_rgba m (c, al) px) = overwrite m c (map fst px).
Proof.
  induction m as [| b m IH]; intros [| p px]; simpl; try reflexivity.
  rewrite IH. destruct b; reflexivity.
Qed.

Lemma overwrite_rgba_alpha (m : list bool) (c : rgba) (d : rgba) :
  forall px p, length m = length px ->
    snd (nth p (overwrite_rgba m c px) d)
    = if nth p m false then snd c else snd (nth p px d).
Proof.
  induction m as [| b m IH]; intros [| q px] p H; simpl in *; try lia.
  - destruct p; reflexivity.
  - destruct p as [| p].
    + destruct b; reflexivity.
    + apply IH. lia.
Qed.

Lemma existsb_ext_in {A : Type} (f g : A -> bool) (l : list A) :
  (forall x, In x l -> f x = g x) -> existsb f l = existsb g l.
Proof.
  induction l as [| x l IH]; intros H; simpl.
  - reflexivity.
  - rewrite (H x (or_introl eq_refl)).
    rewrite IH by (intros y Hy; apply H; right; exact Hy). reflexivity.
Qed.

Lemma existsb_permutation {A : Type} (f : A -> bool) (l l' : list A) :
  Permutation l l' -> existsb f l = existsb f l'.
Proof.
  induction 1 as [| x l l' _ IH | x y l | l l' l'' _ IH1 _ IH2]; simpl.
  - reflexivity.
  - rewrite IH. reflexivity.
  - destruct (f x), (f y); reflexivity.
  - congruence.
Qed.

Lemma logger_bind_lift_ok {St A B : Type} (x : A) (k : A -> Logger.t St B) (s : St) :
  Logger.bind (Logger.lift (Ok x)) k s = k x s.
Proof.
  unfold Logger.bind, Logger.lift. destruct (k x s) as [[tr r] s']. reflexivity.
Qed.

Lemma logger_bind_lift_raise {St A B : Type} (e : exn) (k : A -> Logger.t St B) (s : St) :
  Logger.bind (Logger.lift (Raise e)) k s = (([], Raised (Std e)), s).
Proof. reflexivity. Qed.

Section LoggerFacts.

Variable rng_state : Type.
Variable random3 : rng_state -> color * rng_state.

(** The overlay is painted as the canvas of [mask_to_img] is: the same
    colours from the same draws, and an alpha of 0.35 under every mask. *)
Lemma paint_overlay_sim (anns : list mask) :
  forall (ov : overlay) (img : image) (s : rng_state),
    (forall m, In m anns -> grid_of (im_rows img) (im_cols img) m) ->
    ov_rows ov = im_rows img ->
    ov_cols ov = im_cols img ->
    map fst (ov_pixels ov) = pixels img ->
    length (pixels img) = im_rows img * im_cols img ->
    exists ov' img',
      paint_overlay random3 anns ov s
      = (([], Returned ov'), after_draws random3 (length anns) s)
      /\ paint_all random3 anns img s = (Ok img', after_draws random3 (length anns) s)
      /\ ov_rows ov' = ov_rows ov
      /\ ov_cols ov' = ov_cols ov
      /\ map fst (ov_pixels ov') = pixels img'
      /\ forall p d,
           snd (nth p (ov_pixels ov') d)
           = if existsb (fun m => nth p (data (segmentation m)) false) anns
             then (35 # 100)%Q
             else snd (nth p (ov_pixels ov) d).
Proof.
  induction anns as [| ann anns IH]; intros ov img s Hgrid Hr Hc Hfst Hlen.
  - exists ov, img. simpl. repeat split; try reflexivity. exact Hfst.
  - simpl. destruct (random3 s) as [c s'] eqn:Hrand.
    destruct (Hgrid ann (or_introl eq_refl)) as [Hshape Hwf].
    unfold set_masked, set_masked_rgba. rewrite Hr, Hc, Hshape.
    destruct (list_eq_dec Nat.eq_dec [im_rows img; im_cols img]
                [im_rows img; im_cols img]) as [_ | Hne]; [| congruence].
    assert (Hm : length (data (segmentation ann)) = length (pixels img)).
    { unfold wf_array in Hwf. rewrite Hshape in Hwf. simpl in Hwf. lia. }
    assert (Hm' : length (data (segmentation ann)) = length (ov_pixels ov)).
    { rewrite Hm, <- Hfst, length_map. reflexivity. }
    destruct (IH {| ov_rows := im_rows img; ov_cols := im_cols img;
                    ov_pixels := overwrite_rgba (data (segmentation ann))
                                   (c, (35 # 100)%Q) (ov_pixels ov) |}
                 {| im_rows := im_rows img; im_cols := im_cols img;
                    pixels := overwrite (data (segmentation ann)) c (pixels img) |}
                 s')
      as (ov' & img' & Hov & Himg & Hr' & Hc' & Hfst' & Halpha).
    + intros m Hin. apply Hgrid. right. exact Hin.
    + reflexivity.
    + reflexivity.
    + simpl. rewrite overwrite_rgba_fst, Hfst. reflexivity.
    + simpl. rewrite overwrite_length; assumption.
    + exists ov', img'. simpl in *.
      replace (snd (random3 s)) with s' by (rewrite Hrand; reflexivity).
      rewrite Hov, Himg. repeat split; try assumption; try congruence.
      intros p d. rewrite Halpha.
      rewrite overwrite_rgba_alpha by exact Hm'. simpl.
      destruct (nth p (data (segmentation ann)) false); simpl.
      * destruct (existsb _ anns); reflexivity.
      * reflexivity.
Qed.

(** X10: [show_anns] returns at once on an empty list, without a call on
    the axes and without a draw.  On a non-empty list of masks of one
    extent it calls [set_autoscale_on(True)] and then [imshow] with an
    image whose colour channels are the very canvas [mask_to_img]
    composites from the same generator state, and whose alpha is 0.35 on
    a pixel some mask covers and 0 elsewhere. *)
Theorem show_anns_overlay
  (masks : list mask) (rows cols : nat) (ax : nat) (s : rng_state) :
  masks <> [] ->
  (forall m, In m masks -> grid_of rows cols m) ->
  show_anns random3 [] ax s = (([], Returned tt), s)
  /\ exists img canvas,
       show_anns random3 masks ax s
       = (([SetAutoscaleOn ax true; ImshowOverlay ax img], Returned tt),
          after_draws random3 (length masks) s)
       /\ composite random3 masks s
          = (Ok canvas, after_draws random3 (length masks) s)
       /\ ov_rows img = rows
       /\ ov_cols img = cols
       /\ map fst (ov_pixels img) = pixels canvas
       /\ forall y x, y < rows -> x < cols ->
            snd (nth (y * cols + x) (ov_pixels img) (WHITE, 0%Q))
            = if existsb (fun m => covers m y x) masks then (35 # 100)%Q else 0%Q.
Proof.
  intros Hne Hgrid. split; [reflexivity |].
  pose proof (sorted_by_area_perm masks) as Hperm.
  assert (Hshape : forall m, In m masks -> shape (segmentation m) = [rows; cols])
    by (intros m Hin; apply Hgrid, Hin).
  destruct (sorted_by_area masks) as [| largest others] eqn:Hsorted.
  { apply Permutation_nil in Hperm. contradiction. }
  assert (Hlargest : shape (segmentation largest) = [rows; cols]).
  { apply Hshape. eapply Permutation_in; [exact Hperm | left; reflexivity]. }
  destruct (@paint_overlay_sim (largest :: others)
              (clear_alpha (np_ones4 rows cols)) (np_ones rows cols) s)
    as (ov' & img' & Hov & Himg & Hr & Hc & Hfst & Halpha).
  { intros m Hin. simpl. apply Hgrid. eapply Permutation_in; eassumption. }
  { reflexivity. }
  { reflexivity. }
  { simpl. rewrite map_map. simpl. rewrite map_repeat. reflexivity. }
  { simpl. apply repeat_length. }
  rewrite (Permutation_length Hperm) in Hov, Himg.
  exists ov', img'. split; [| split; [| split; [| split; [| split]]]].
  - unfold show_anns.
    destruct masks as [| m0 ms]; [congruence |]. cbn [length Nat.eqb].
    rewrite Hsorted.
    unfold Logger.bind, Logger.emit, Logger.lift, grid_rows, grid_cols, index.
    cbn [nth_error]. rewrite Hlargest. cbn [nth_error]. rewrite Hov. reflexivity.
  - rewrite (composite_unfold random3 s Hne Hshape), Hsorted. exact Himg.
  - rewrite Hr. reflexivity.
  - rewrite Hc. reflexivity.
  - exact Hfst.
  - intros y x Hy Hx. rewrite Halpha.
    rewrite (existsb_permutation _ Hperm).
    rewrite (existsb_ext_in (fun m => nth (y * cols + x) (data (segmentation m)) false)
               (fun m => covers m y x)).
    + destruct (existsb (fun m => covers m y x) masks); [reflexivity |].
      simpl. rewrite map_repeat. simpl.
      destruct (Nat.lt_ge_cases (y * cols + x) (rows * cols)) as [Hlt | Hge].
      * rewrite nth_repeat_lt by exact Hlt. reflexivity.
      * rewrite nth_overflow by (rewrite repeat_length; exact Hge). reflexivity.
    + intros m Hin. unfold covers. rewrite (Hshape m Hin). reflexivity.
Qed.

End LoggerFacts.

Lemma show_anns_overlay_witness :
  exists img,
    show_anns counter_random3 [small_mask; large_mask] 2 0
    = (([SetAutoscaleOn 2 true; ImshowOverlay 2 img], Returned tt), 2)
    /\ map fst (ov_pixels img) = pixels two_mask_canvas
    /\ snd (nth 3 (ov_pixels img) (WHITE, 0%Q)) = 0%Q.
Proof.
  destruct (@show_anns_overlay nat counter_random3 [small_mask; large_mask] 2 2 2 0)
    as (_ & img & canvas & Hshow & Hcanvas & _ & _ & Hfst & Halpha).
  - discriminate.
  - intros m [<- | [<- | []]]; split; reflexivity.
  - exists img. split; [exact Hshow |]. split.
    + rewrite Hfst. rewrite composite_small_inside_large in Hcanvas.
      injection Hcanvas as <-. reflexivity.
    + apply (Halpha 1 1); lia.
Defined.

(** X11: in the module as it is, every call of [visualize_sam_maps]
    stops at the loop header, where [batch_viz_obs_images] is neither a
    parameter nor a global: it raises a name error before any figure is
    opened, any file saved, anything logged or printed, and any colour
    drawn, whatever the arguments (and whatever [viz_freq], zero
    included). *)
Theorem visualize_sam_maps_name_error
  (rng_state : Type) (random3 : rng_state -> color * rng_state)
  (as_batch : pyobj -> result (list tensor))
  (viz_obs viz_goal : tensor) (obs_map goal_map : list mask) (viz_freq : Z)
  (s : rng_state) :
  visualize_sam_maps random3 as_batch viz_utils_globals
    viz_obs viz_goal obs_map goal_map viz_freq s
  = (([], Raised (Std (NameError "batch_viz_obs_images"))), s).
Proof. reflexivity. Qed.

(** X12: binding the two ambient names is not enough.  With both bound
    to non-empty batches, a call with [viz_freq = 0] raises
    [ZeroDivisionError] in the first round, before any figure; with any
    other [viz_freq] the first round opens a figure with [plt.subplots]
    and then stops at the unbound [to_numpy]: nothing is shown, saved,
    logged or printed. *)
Theorem visualize_sam_maps_with_batches
  (rng_state : Type) (random3 : rng_state -> color * rng_state)
  (as_batch : pyobj -> result (list tensor)) (G : namespace)
  (o g : pyobj) (obs goal : tensor) (more_obs more_goal : list tensor)
  (viz_obs viz_goal : tensor) (obs_map goal_map : list mask) (viz_freq : Z)
  (s : rng_state) :
  lookup_global G "batch_viz_obs_images" = Ok o ->
  lookup_global G "batch_viz_goal_images" = Ok g ->
  as_batch o = Ok (obs :: more_obs) ->
  as_batch g = Ok (goal :: more_goal) ->
  lookup_global G "to_numpy" = Raise (NameError "to_numpy") ->
  visualize_sam_maps random3 as_batch G viz_obs viz_goal obs_map goal_map viz_freq s
  = if (viz_freq =? 0)%Z
    then (([], Raised ZeroDivisionError), s)
    else (([PltSubplots 1 4], Raised (Std (NameError "to_numpy"))), s).
Proof.
  intros Ho Hg Hob Hgb Hnp. unfold visualize_sam_maps.
  rewrite Ho, logger_bind_lift_ok, Hg, logger_bind_lift_ok.
  rewrite Hob, logger_bind_lift_ok, Hgb, logger_bind_lift_ok.
  unfold enumerate. cbn [combine length seq Logger.fold].
  unfold Logger.bind at 1. unfold Logger.bind at 1. unfold Logger.bind at 1.
  unfold due. destruct (Z.eqb_spec viz_freq 0) as [Hz | Hz].
  - reflexivity.
  - unfold Logger.ret at 1. cbn [Z.of_nat]. rewrite Z.mod_0_l by exact Hz.
    cbn [Z.eqb]. unfold panel. unfold Logger.bind at 1. unfold Logger.emit at 1.
    unfold Logger.bind at 1. unfold to_moved at 1. rewrite Hnp.
    rewrite logger_bind_lift_raise. reflexivity.
Qed.

Lemma visualize_sam_maps_with_batches_witness :
  visualize_sam_maps counter_random3 one_image_batch with_batches
    two_pixels two_pixels [small_mask] [] 10 0
  = (([PltSubplots 1 4], Raised (Std (NameError "to_numpy"))), 0).
Proof.
  apply (@visualize_sam_maps_with_batches nat counter_random3 one_image_batch
           with_batches (PyDef "obs batch") (PyDef "goal batch")
           two_pixels two_pixels [] [] two_pixels two_pixels [small_mask] [] 10 0);
    reflexivity.
Defined.

(** ** A run of the logger in a namespace that binds its names *)

Lemma logger_bind_inv {St A B : Type} (m : Logger.t St A) (k : A -> Logger.t St B)
  (s s' : St) (tr : list panel_event) (b : B) :
  Logger.bind m k s = ((tr, Returned b), s') ->
  exists tr1 a s1 tr2,
    m s = ((tr1, Returned a), s1)
    /\ k a s1 = ((tr2, Returned b), s')
    /\ tr = tr1 ++ tr2.
Proof.
  unfold Logger.bind. destruct (m s) as [[tr1 [a | e]] s1]; [| discriminate].
  destruct (k a s1) as [[tr2 r] s2] eqn:Hk. intros [= <- -> <-].
  exists tr1, a, s1, tr2. repeat split. exact Hk.
Qed.

Lemma quiet_trace (tr : list panel_event) :
  Forall quiet tr -> saved_paths tr = [] /\ logged_batches tr = [].
Proof.
  induction 1 as [| ev tr Hq _ [IH1 IH2]]; [split; reflexivity |].
  unfold saved_paths, logged_batches in *. simpl. rewrite IH1, IH2.
  destruct ev; try contradiction; split; reflexivity.
Qed.

Section QuietParts.

Variable rng_state : Type.
Variable random3 : rng_state -> color * rng_state.
Variable G : namespace.

Lemma paint_overlay_trace (anns : list mask) :
  forall (ov : overlay) (s : rng_state),
    fst (fst (paint_overlay random3 anns ov s)) = [].
Proof.
  induction anns as [| ann anns IH]; intros ov s; simpl.
  - reflexivity.
  - destruct (random3 s) as [c s'].
    destruct (set_masked_rgba ov (segmentation ann) (c, (35 # 100)%Q)); [apply IH | reflexivity].
Qed.

Lemma show_anns_quiet (anns : list mask) (ax : nat) (s : rng_state) :
  Forall quiet (fst (fst (show_anns random3 anns ax s))).
Proof.
  unfold show_anns. destruct (length anns =? 0); [constructor |].
  unfold Logger.bind, Logger.emit, Logger.lift.
  destruct (index (sorted_by_area anns) 0) as [largest | e]; [| repeat constructor].
  destruct (grid_rows (segmentation largest)) as [rows | e]; [| repeat constructor].
  destruct (grid_cols (segmentation largest)) as [cols | e]; [| repeat constructor].
  pose proof (paint_overlay_trace (sorted_by_area anns)
                (clear_alpha (np_ones4 rows cols)) s) as Htr.
  destruct (paint_overlay random3 (sorted_by_area anns)
              (clear_alpha (np_ones4 rows cols)) s) as [[tr [ov | e]] s'];
    simpl in Htr; subst tr; repeat constructor.
Qed.

Lemma to_moved_quiet (x : tensor) (s : rng_state) :
  fst (fst (to_moved G x s)) = [].
Proof.
  unfold to_moved, Logger.bind, Logger.lift.
  destruct (lookup_global G "to_numpy") as [f | e]; [| reflexivity].
  destruct (call_tensor_fn f x) as [arr | e]; [| reflexivity].
  destruct (np_moveaxis_0_last arr); reflexivity.
Qed.

(** A round that completes saves one figure, under the name of its
    index, and logs the list so far with that figure added. *)
Lemma panel_returned (i : nat) (obs goal : tensor) (obs_map goal_map : list mask)
  (wandb_list wandb_list' : list string) (s s' : rng_state) (tr : list panel_event) :
  panel random3 G i obs goal obs_map goal_map wandb_list s
  = ((tr, Returned wandb_list'), s') ->
  saved_paths tr = [figure_path i]
  /\ logged_batches tr = [wandb_list ++ [figure_path i]]
  /\ wandb_list' = wandb_list ++ [figure_path i].
Proof.
  unfold panel. intros H.
  apply logger_bind_inv in H. destruct H as (t0 & [] & s0 & r0 & H0 & H & ->).
  injection H0 as <- <-.
  apply logger_bind_inv in H. destruct H as (t1 & om & s1 & r1 & H1 & H & ->).
  apply logger_bind_inv in H. destruct H as (t2 & gm & s2 & r2 & H2 & H & ->).
  apply logger_bind_inv in H. destruct H as (t3 & [] & s3 & r3 & H3 & H & ->).
  injection H3 as <- <-.
  apply logger_bind_inv in H. destruct H as (t4 & [] & s4 & r4 & H4 & H & ->).
  injection H4 as <- <-.
  apply logger_bind_inv in H. destruct H as (t5 & [] & s5 & r5 & H5 & H & ->).
  apply logger_bind_inv in H. destruct H as (t6 & [] & s6 & r6 & H6 & H & ->).
  unfold Logger.bind, Logger.emit, Logger.ret in H. injection H as <- <- <-.
  pose proof (to_moved_quiet obs s) as Q1. rewrite H1 in Q1. simpl in Q1. subst t1.
  pose proof (to_moved_quiet goal s1) as Q2. rewrite H2 in Q2. simpl in Q2. subst t2.
  pose proof (show_anns_quiet obs_map 2 s2) as Q5. rewrite H5 in Q5. simpl in Q5.
  pose proof (show_anns_quiet goal_map 3 s5) as Q6. rewrite H6 in Q6. simpl in Q6.
  destruct (quiet_trace Q5) as [S5 L5]. destruct (quiet_trace Q6) as [S6 L6].
  unfold saved_paths, logged_batches in *.
  rewrite !flat_map_app, S5, S6, L5, L6. repeat split; reflexivity.
Qed.

End QuietParts.

Lemma map_fst_enumerate {A : Type} (xs : list A) :
  map fst (enumerate xs) = seq 0 (length xs).
Proof.
  unfold enumerate. generalize 0 as k.
  induction xs as [| x xs IH]; intros k; simpl; [reflexivity |].
  rewrite IH. reflexivity.
Qed.

Lemma prefixes_cons (wl : list string) (p : string) (l : list string) :
  map (fun k => wl ++ firstn (S k) (p :: l)) (seq 0 (S (length l)))
  = (wl ++ [p]) :: map (fun k => (wl ++ [p]) ++ firstn (S k) l) (seq 0 (length l)).
Proof.
  cbn [seq map firstn]. f_equal.
  rewrite <- seq_shift, map_map. apply map_ext. intros k.
  rewrite <- app_assoc. reflexivity.
Qed.

Section LoggerRun.

Variable rng_state : Type.
Variable random3 : rng_state -> color * rng_state.
Variable G : namespace.
Variable obs_map goal_map : list mask.
Variable viz_freq : Z.

(** The loop of lines 173-220, from any list carried in. *)
Lemma rounds_returned (rounds : list (nat * (tensor * tensor))) :
  forall (wl wl' : list string) (s s' : rng_state) (tr : list panel_event),
    Logger.fold rounds wl
      (fun (round : nat * (tensor * tensor)) (wandb_list : list string) =>
         let '(i, (obs, goal)) := round in
         Logger.bind (due i viz_freq)
           (fun d : bool =>
              if d
              then panel random3 G i obs goal obs_map goal_map wandb_list
              else Logger.ret wandb_list)) s
    = ((tr, Returned wl'), s') ->
    saved_paths tr
    = map figure_path
        (filter (fun i => (Z.of_nat i mod viz_freq =? 0)%Z) (map fst rounds))
    /\ wl' = wl ++ saved_paths tr
    /\ logged_batches tr
       = map (fun k => wl ++ firstn (S k) (saved_paths tr))
             (seq 0 (length (saved_paths tr))).
Proof.
  induction rounds as [| [i [obs goal]] rounds IH]; intros wl wl' s s' tr H.
  - injection H as <- <- <-. simpl. rewrite app_nil_r. repeat split.
  - cbn [Logger.fold] in H.
    apply logger_bind_inv in H. destruct H as (tr1 & wl1 & s1 & tr2 & Hbody & Hrest & ->).
    apply logger_bind_inv in Hbody.
    destruct Hbody as (t0 & d & s0 & t1 & Hdue & Hround & ->).
    unfold due in Hdue. destruct (viz_freq =? 0)%Z; [discriminate |].
    injection Hdue as <- <- <-.
    destruct (IH _ _ _ _ _ Hrest) as (Hs & Hw & Hl).
    cbn [map fst filter app].
    assert (Happ_s : forall a b, saved_paths (a ++ b) = saved_paths a ++ saved_paths b)
      by (intros; apply flat_map_app).
    assert (Happ_l : forall a b,
               logged_batches (a ++ b) = logged_batches a ++ logged_batches b)
      by (intros; apply flat_map_app).
    rewrite Happ_s, Happ_l.
    destruct (Z.of_nat i mod viz_freq =? 0)%Z.
    + apply panel_returned in Hround. destruct Hround as (Hs1 & Hl1 & ->).
      rewrite Hs1, Hl1, Hs. cbn [map app]. split; [reflexivity |]. split.
      * rewrite Hw, Hs, <- app_assoc. reflexivity.
      * rewrite Hl, Hs. cbn [length]. rewrite prefixes_cons. reflexivity.
    + injection Hround as <- <-. cbn [saved_paths logged_batches flat_map app].
      repeat split; assumption.
Qed.

(** X13: in a namespace that binds the ambient names, a call that
    returns has saved one figure for every index [i] of the zipped batch
    with [i % viz_freq == 0], at [examples/maps_<i>.png] and in that
    order, and has called [wandb.log] once per figure, each time with
    every figure saved so far: the k-th call carries the first k paths. *)
Theorem visualize_sam_maps_saves_and_logs
  (as_batch : pyobj -> result (list tensor)) (o g : pyobj)
  (obs_batch goal_batch : list tensor) (viz_obs viz_goal : tensor)
  (s s' : rng_state) (tr : list panel_event) :
  lookup_global G "batch_viz_obs_images" = Ok o ->
  lookup_global G "batch_viz_goal_images" = Ok g ->
  as_batch o = Ok obs_batch ->
  as_batch g = Ok goal_batch ->
  visualize_sam_maps random3 as_batch G viz_obs viz_goal obs_map goal_map viz_freq s
  = ((tr, Returned tt), s') ->
  saved_paths tr
  = map figure_path
      (due_rounds (Nat.min (length obs_batch) (length goal_batch)) viz_freq)
  /\ logged_batches tr
     = map (fun k => firstn (S k) (saved_paths tr)) (seq 0 (length (saved_paths tr))).
Proof.
  intros Ho Hg Hob Hgb H. unfold visualize_sam_maps in H.
  rewrite Ho, logger_bind_lift_ok, Hg, logger_bind_lift_ok in H.
  rewrite Hob, logger_bind_lift_ok, Hgb, logger_bind_lift_ok in H.
  apply logger_bind_inv in H. destruct H as (tr1 & wl & s1 & tr2 & Hloop & Hret & ->).
  injection Hret as <- <-. rewrite app_nil_r.
  apply rounds_returned in Hloop. destruct Hloop as (Hs & _ & Hl).
  rewrite map_fst_enumerate, length_combine in Hs.
  split; [exact Hs | exact Hl].
Qed.

End LoggerRun.

Lemma visualize_sam_maps_saves_and_logs_witness :
  saved_paths
    (fst (fst (visualize_sam_maps counter_random3 three_image_batch
                 with_batches_and_helper two_pixels two_pixels [small_mask] [] 2 0)))
  = ["examples/maps_0.png"; "examples/maps_2.png"]%string
  /\ logged_batches
       (fst (fst (visualize_sam_maps counter_random3 three_image_batch
                    with_batches_and_helper two_pixels two_pixels [small_mask] [] 2 0)))
     = [ ["examples/maps_0.png"]; ["examples/maps_0.png"; "examples/maps_2.png"] ]%string.
Proof.
  destruct (@visualize_sam_maps_saves_and_logs nat counter_random3
              with_batches_and_helper [small_mask] [] 2 three_image_batch
              (PyDef "obs batch") (PyDef "goal batch")
              [two_pixels; two_pixels; two_pixels] [two_pixels; two_pixels; two_pixels]
              two_pixels two_pixels 0 2
              (fst (fst (visualize_sam_maps counter_random3 three_image_batch
                           with_batches_and_helper two_pixels two_pixels
                           [small_mask] [] 2 0))))
    as [Hs Hl]; try reflexivity.
  split; [exact Hs |]. rewrite Hl, Hs. reflexivity.
Defined.

(* ================================================================== *)
(** * The order of the renderer's calls *)

Lemma plot_traj_of_trajectory (G : namespace) (a : plot_args) (it : nat * array2) :
  respects of_trajectory drawing_error (plot_traj G a it).
Proof.
  destruct it as [i t]. unfold plot_traj. apply respects_bind.
  - unfold plot_traj_line. destruct (traj_labels a); repeat drawing_step; exact I.
  - intros _. unfold plot_traj_quiver.
    destruct ((2 <? ncols t) && (0 <? quiver_freq a)%Z); repeat drawing_step; exact I.
Qed.

Lemma plot_point_of_point (a : plot_args) (ip : nat * list Q) :
  respects of_point drawing_error (plot_point a ip).
Proof.
  destruct ip as [i pt]. unfold plot_point.
  destruct (point_labels a); repeat drawing_step; exact I.
Qed.

(** X14: the calls on the axes come in three runs: first everything of
    the trajectories (lines and heading indicators), then the markers of
    the points, then the legend and [set_aspect]; nothing of a trajectory
    is drawn after a marker, whether the call returns or raises. *)
Theorem drawing_order (G : namespace) (a : plot_args) :
  exists trajs points closing,
    fst (plot_trajs_and_points G a) = trajs ++ points ++ closing
    /\ Forall of_trajectory trajs
    /\ Forall of_point points
    /\ Forall of_finish closing
    /\ (closing <> [] -> snd (plot_trajs_and_points G a) = Ok tt).
Proof.
  destruct (preconditions_eval a) as [(Hv & msg & _ & Hpre) | (Hnv & Hpre)].
  - exists [], [], []. unfold plot_trajs_and_points. rewrite Hpre. simpl.
    repeat split; try constructor. congruence.
  - rewrite (after_preconditions G a Hpre), finish_eval. unfold draw_loops.
    pose proof (respects_for_each (evs := of_trajectory) (errs := drawing_error)
                  (enumerate (list_trajs a)) (plot_traj G a)
                  (fun it _ => plot_traj_of_trajectory G a it)) as [Ht _].
    pose proof (respects_for_each (evs := of_point) (errs := drawing_error)
                  (enumerate (list_points a)) (plot_point a)
                  (fun ip _ => plot_point_of_point a ip)) as [Hp _].
    destruct (Py.for_each (enumerate (list_trajs a)) (plot_traj G a))
      as [t [[] | e]]; simpl in Ht.
    + destruct (Py.for_each (enumerate (list_points a)) (plot_point a))
        as [p [[] | e]]; simpl in Hp.
      * exists t, p, (legend_ops a ++ [AxSetAspect "equal" "box"]). simpl.
        rewrite <- app_assoc. repeat split; try assumption.
        unfold legend_ops.
        destruct (is_not_none (traj_labels a) || is_not_none (point_labels a));
          repeat constructor.
      * exists t, p, []. simpl. rewrite app_nil_r.
        repeat split; try assumption; try constructor. congruence.
    + exists t, [], []. simpl. rewrite app_nil_r.
      repeat split; try assumption; try constructor. congruence.
Qed.

Lemma renderer_returns_iff_drawable_witness :
  plot_trajs_and_points viz_utils_globals (unlabelled [zigzag; zigzag] [corner])
  = ([line_for (unlabelled [zigzag; zigzag] [corner]) (0, zigzag);
      line_for (unlabelled [zigzag; zigzag] [corner]) (1, zigzag);
      marker_for (unlabelled [zigzag; zigzag] [corner]) (0, corner);
      AxSetAspect "equal" "box"],
     Ok tt).
Proof.
  apply (proj2 (renderer_returns_iff_drawable (unlabelled [zigzag; zigzag] [corner]))).
  apply (proj1 (renderer_returns_iff_drawable (unlabelled [zigzag; zigzag] [corner]))).
  reflexivity.
Defined.

Lemma set_aspect_iff_returns_witness :
  existsb is_legend (fst (plot_trajs_and_points viz_utils_globals one_alpha_short)) = false
  /\ existsb is_set_aspect (fst (plot_trajs_and_points viz_utils_globals one_alpha_short))
     = false.
Proof.
  apply (proj2 (set_aspect_iff_returns viz_utils_globals one_alpha_short)).
  discriminate.
Defined.
